(** * NeuroHackademy curriculum notebooks: the notebook-authored code and
      what holds of it.

    The repository is a collection of Jupyter notebooks.  The code written
    in the notebooks themselves (as opposed to the libraries they call) is
    small: a manual k-fold cross-validation loop, the [ls] path helper, the
    guarded creation of the cache directory, the cells that set up S3
    clients and neuropythy, a cumulative-variance plot and a gradient-descent
    loop.  Part I embeds that code; Part II states and proves its
    properties. *)

From stdpp Require Import gmap strings list sets sorting.
From Stdlib Require Import Ascii QArith Qabs Qpower Qround Lqa.

Open Scope nat_scope.

(** * Part I: the embedding *)

(** ** Python built-ins *)

(** [enumerate(l)]: the list of pairs (position, element). *)
Definition enumerate {A} (l : list A) : list (nat * A) := imap pair l.

(** ** Manual k-fold cross-validation (4. Validation, src/unnamed/part_006) *)

Module KFoldLoop.

(** [K = 5], the number of folds. *)
Definition K : nat := 5.

Section Folds.
(** The cell reads the global [K]; the index computations are written once
    for any number of folds and used at [K = 5]. *)
Variable K : nat.

(** [train = [x for (i, x) in enumerate(inds) if i % K != k]] *)
Definition train (inds : list nat) (k : nat) : list nat :=
  (filter (λ p : nat * nat, p.1 mod K ≠ k) (enumerate inds)).*2.

(** [test = list(set(inds) - set(train))].  The order in which a Python set
    is listed is unspecified: [elements] of a [gset] is likewise only
    determined up to permutation. *)
Definition test (inds : list nat) (k : nat) : list nat :=
  elements ((list_to_set inds : gset nat) ∖ list_to_set (train inds k)).

(** The elements the comprehension leaves out: those at the positions of
    the k-th residue class. *)
Definition held_out (inds : list nat) (k : nat) : list nat :=
  (filter (λ p : nat * nat, p.1 mod K = k) (enumerate inds)).*2.

(** How many of [n] samples a fold gets when the first [n mod K] folds get
    one more than the others. *)
Definition fold_size (n k : nat) : nat :=
  n / K + (if decide (k < n mod K) then 1 else 0).

End Folds.

(** [inds = list(range(n)); shuffle(inds)]: after the shuffle [inds] is some
    rearrangement of [0, ..., n-1].  Nothing else is known about it. *)
Definition shuffled (n : nat) (inds : list nat) : Prop := inds ≡ₚ seq 0 n.

Section CrossValidation.
(** The estimator is library code (scikit-learn's [LinearRegression]).
    [fit rows] stands for [est.fit(X_small.iloc[rows], y.iloc[rows])] and
    [score est rows] for [est.score(X_small.iloc[rows], y.iloc[rows])];
    [mean] is numpy's mean and [zero] the entry of [np.zeros]. *)
Context {Model Score : Type}.
Variable fit : list nat → Model.
Variable score : Model → list nat → Score.
Variable mean : list Score → Score.
Variable zero : Score.

(** The body of [for k in range(K)], acting on the two result arrays
    [(train_r2, test_r2)]. *)
Definition loop_body (inds : list nat)
    (r2 : list Score * list Score) (k : nat) : list Score * list Score :=
  let train := train K inds k in
  let test := test K inds k in
  let est := fit train in
  let _train_r2 := score est train in
  let _test_r2 := score est test in
  (<[k := _train_r2]> r2.1, <[k := _test_r2]> r2.2).

(** The whole loop, both arrays starting as [np.zeros(5)]. *)
Definition kfold_loop (inds : list nat) : list Score * list Score :=
  foldl (loop_body inds) (replicate 5 zero, replicate 5 zero) (seq 0 K).

(** [train_mean = np.array(train_r2).mean()] and likewise [test_mean]. *)
Definition train_mean (inds : list nat) : Score := mean (kfold_loop inds).1.
Definition test_mean (inds : list nat) : Score := mean (kfold_loop inds).2.

(** [X.iloc[idx]]: the rows found at the positions [idx]. *)
Definition iloc (rows : list nat) (idx : list nat) : list nat :=
  omap (λ i, rows !! i) idx.

(** The library side of the comparison.  It is not code of the notebooks:
    it follows the description of k-fold cross-validation (partition the
    rows into k subsets, fit on k-1 of them, score on the one held out),
    with the subsets formed as scikit-learn documents for [KFold], which is
    what an integer [cv] stands for: no shuffling, consecutive folds, the
    first [n % n_splits] folds of size [n // n_splits + 1] and the others of
    size [n // n_splits]; the train indices of a fold are all the other
    indices, in order. *)
Definition KFold_sizes (n n_splits : nat) : list nat :=
  fold_size n_splits n <$> seq 0 n_splits.

Fixpoint KFold_from (n current : nat) (sizes : list nat)
    : list (list nat * list nat) :=
  match sizes with
  | [] => []
  | fold_size :: sizes =>
      let test_index := take fold_size (drop current (seq 0 n)) in
      let train_index := filter (λ i, i ∉ test_index) (seq 0 n) in
      (train_index, test_index) :: KFold_from n (current + fold_size) sizes
  end.

Definition KFold_split (n n_splits : nat) : list (list nat * list nat) :=
  KFold_from n 0 (KFold_sizes n n_splits).

(** [cross_val_score(est, X, y, cv)] on a dataset whose rows are [rows]:
    one test score per fold.  [None] stands for the [ValueError] the library
    raises when [cv] is below 2 or above the number of samples. *)
Definition cross_val_score (rows : list nat) (cv : nat)
    : option (list Score) :=
  if decide (2 ≤ cv ∧ cv ≤ length rows) then
    Some ((λ s : list nat * list nat,
             score (fit (iloc rows s.1)) (iloc rows s.2))
          <$> KFold_split (length rows) cv)
  else None.

(** The scores of a dataset laid out fold after fold, [pre] being the folds
    already held out and [post] those still to come. *)
Fixpoint held_out_scores (pre post : list (list nat)) : list Score :=
  match post with
  | [] => []
  | f :: post' =>
      score (fit (concat pre ++ concat post')) f
        :: held_out_scores (pre ++ [f]) post'
  end.

End CrossValidation.

(** The rows of the shuffle listed residue class after residue class: the
    order of the rows on which the library call is compared with the loop. *)
Definition regroup (inds : list nat) : list nat :=
  concat (held_out K inds <$> seq 0 K).

End KFoldLoop.

(** ** Paths: the [ls] helper and the cache directory (data-access notebooks) *)

Module Pathlib.

(** *** Exceptions *)

(** Where an exception object was constructed: inside a library the
    notebooks call, or by a [raise] statement written in a notebook cell. *)
Inductive origin := FromLibrary | FromNotebook.

Inductive exn_kind :=
  | ValueError
  | FileNotFoundError
  | FileExistsError
  | NotADirectoryError
  | PermissionError
  | ClientError.

Record exn := Exn { raised_by : origin; kind : exn_kind; message : string }.

(** What evaluating a notebook expression ends in. *)
Inductive outcome (A : Type) :=
  | Returns (a : A)
  | Raises (e : exn).
Arguments Returns {A} a.
Arguments Raises {A} e.

(** What a library call ends in; the library never builds a notebook
    exception. *)
Inductive lib_result (A : Type) :=
  | LibOk (a : A)
  | LibError (k : exn_kind) (msg : string).
Arguments LibOk {A} a.
Arguments LibError {A} k msg.

#[global] Instance origin_eq_dec : EqDecision origin.
Proof. solve_decision. Defined.
#[global] Instance exn_kind_eq_dec : EqDecision exn_kind.
Proof. solve_decision. Defined.

(** Calling into a library from a cell: the notebooks have no [try], so
    whatever the library raises propagates as it is. *)
Definition call {A} (r : lib_result A) : outcome A :=
  match r with
  | LibOk a => Returns a
  | LibError k msg => Raises (Exn FromLibrary k msg)
  end.

(** [raise k(msg)] written in a cell. *)
Definition raise {A} (k : exn_kind) (msg : string) : outcome A :=
  Raises (Exn FromNotebook k msg).

#[global] Instance outcome_ret : MRet outcome := λ A a, Returns a.
#[global] Instance outcome_bind : MBind outcome := λ A B f m,
  match m with
  | Returns a => f a
  | Raises e => Raises e
  end.

(** *** The [ls] helper *)

(** What [ls] uses of a path object; [pathlib.Path] and
    [cloudpathlib.S3Path] both provide it. *)
Class PathLike (P : Type) := {
  is_dir : P → lib_result bool;
  iterdir : P → lib_result (list P);
  str : P → string;
}.

(** [[
def ls(path):
    if not path.is_dir():
        raise ValueError(f"Path '{path}' is not a directory")
    else:
        return list(path.iterdir())
]] *)
Definition ls `{PathLike P} (path : P) : outcome (list P) :=
  d ← call (is_dir path);
  if negb d then
    raise ValueError ("Path '" +:+ str path +:+ "' is not a directory")
  else
    call (iterdir path).

(** *** A local file system *)

Inductive node :=
  | File (content : string)
  | Dir.

#[global] Instance node_eq_dec : EqDecision node.
Proof. solve_decision. Defined.

(** [Path(s)] for an absolute path [s]: its components below the root. *)
Fixpoint parts (s : string) (acc : string) : list string :=
  match s with
  | EmptyString => [acc]
  | String c s' =>
      if Ascii.eqb c "/"%char then acc :: parts s' ""
      else parts s' (acc +:+ String c "")
  end.

Definition Path (s : string) : list string :=
  filter (λ c, c ≠ "") (parts s "").

(** [str(p)] *)
Definition path_str (p : list string) : string :=
  match p with
  | [] => "/"
  | _ => foldr (λ c s, "/" +:+ c +:+ s) "" p
  end.

(** The entry found at a path; the root is always a directory. *)
Definition node_at (fs : gmap (list string) node) (p : list string)
    : option node :=
  match p with
  | [] => Some Dir
  | _ => fs !! p
  end.

Definition parent (p : list string) : list string := removelast p.

Definition is_child (p q : list string) : bool :=
  bool_decide (q ≠ [] ∧ parent q = p).

(** [Path.exists], [Path.is_dir], [Path.iterdir] *)
Definition path_exists (fs : gmap (list string) node) (p : list string)
    : bool :=
  bool_decide (is_Some (node_at fs p)).

Definition path_is_dir (fs : gmap (list string) node) (p : list string)
    : bool :=
  bool_decide (node_at fs p = Some Dir).

Definition path_iterdir (fs : gmap (list string) node) (p : list string)
    : lib_result (list (list string)) :=
  match node_at fs p with
  | Some Dir => LibOk (filter (λ q, is_child p q) (elements (dom fs)))
  | Some (File _) => LibError NotADirectoryError (path_str p)
  | None => LibError FileNotFoundError (path_str p)
  end.

(** [Path.mkdir()], with the defaults [parents=False, exist_ok=False]. *)
Definition path_mkdir (fs : gmap (list string) node) (p : list string)
    : lib_result () * gmap (list string) node :=
  match node_at fs p with
  | Some _ => (LibError FileExistsError (path_str p), fs)
  | None =>
      match node_at fs (parent p) with
      | None => (LibError FileNotFoundError (path_str p), fs)
      | Some (File _) => (LibError NotADirectoryError (path_str p), fs)
      | Some Dir => (LibOk (), <[p := Dir]> fs)
      end
  end.

(** Local paths, read against a snapshot of the file system. *)
Definition LocalPath (fs : gmap (list string) node) : PathLike (list string) :=
  {| is_dir p := LibOk (path_is_dir fs p);
     iterdir := path_iterdir fs;
     str := path_str |}.

(** *** Creating the cache directory *)

(** The file-system calls a cell makes, in order, with their answers. *)
Inductive event :=
  | ExistsCall (p : list string) (r : bool)
  | MkdirCall (p : list string) (r : lib_result ()).

(** The state a cell runs in: the file system and the calls made so far. *)
Record world := World {
  files : gmap (list string) node;
  calls : list event;
}.

(** A cell: it may change the file system and ends in a value or in an
    uncaught exception. *)
Definition cell (A : Type) : Type := world → outcome A * world.

#[global] Instance cell_ret : MRet cell := λ A a w, (Returns a, w).
#[global] Instance cell_bind : MBind cell := λ A B f m w,
  match m w with
  | (Returns a, w') => f a w'
  | (Raises e, w') => (Raises e, w')
  end.

(** [p.exists()] *)
Definition path_exists_call (p : list string) : cell bool := λ w,
  let r := path_exists (files w) p in
  (Returns r, World (files w) (calls w ++ [ExistsCall p r])).

(** [p.mkdir()] *)
Definition path_mkdir_call (p : list string) : cell () := λ w,
  let r := path_mkdir (files w) p in
  (call r.1, World r.2 (calls w ++ [MkdirCall p r.1])).

(** The two lines every data-access notebook runs on its [cache_path]:
[[
if not cache_path.exists():
    cache_path.mkdir()
]] *)
Definition mkdir_if_missing (cache_path : list string) : cell () :=
  e ← path_exists_call cache_path;
  if negb e then path_mkdir_call cache_path else mret ().

(** Running a cell from a file system, with an empty record of calls. *)
Definition run {A} (c : cell A) (fs : gmap (list string) node)
    : outcome A * world :=
  c (World fs []).

Definition is_FileExistsError {A} (r : lib_result A) : bool :=
  match r with
  | LibError FileExistsError _ => true
  | _ => false
  end.

(** C9 for one cell [c] that is to create the directory [p], run from the
    file system [fs]: [mkdir] is called only after [exists] answered false
    and does not end in [FileExistsError]; no [FileExistsError] escapes; if
    [p] exists the cell returns and the file system stays as it was; and a
    second run changes nothing the first run left. *)
Definition guarded_and_idempotent (p : list string) (c : cell ())
    (fs : gmap (list string) node) : Prop :=
  (calls (run c fs).2 = [ExistsCall p true] ∨
   ∃ r, calls (run c fs).2 = [ExistsCall p false; MkdirCall p r] ∧
        path_exists fs p = false ∧
        is_FileExistsError r = false) ∧
  (∀ o msg, (run c fs).1 ≠ Raises (Exn o FileExistsError msg)) ∧
  (path_exists fs p = true →
     (run c fs).1 = Returns () ∧ files (run c fs).2 = fs) ∧
  files (c (run c fs).2).2 = files (run c fs).2.

(** The cache directory with the README the first notebook writes in it,
    below an existing [/tmp]. *)
Definition cache_with_readme : gmap (list string) node :=
  <[ ["tmp"; "cache"; "README.md"] := File "# Local Dataset Cache Directory" ]>
  (<[ ["tmp"; "cache"] := Dir ]> (<[ ["tmp"] := Dir ]> ∅)).

Definition only_tmp : gmap (list string) node := <[ ["tmp"] := Dir ]> ∅.

End Pathlib.

(** ** Where the notebooks read data from, and how they sign requests *)

Module DataAccess.
Import Pathlib.

(** [cloudpathlib.S3Client(local_cache_dir=..., profile_name=...,
    no_sign_request=...)]; an argument that is not given keeps its default
    ([None], [None], [False]). *)
Record S3Client := {
  local_cache_dir : option (list string);
  profile_name : option string;
  no_sign_request : bool;
}.

(** [cloudpathlib.S3Path(url, client=client)] *)
Record S3Path := mkS3Path {
  url : string;
  client : S3Client;
}.

(** A value stored in [ny.config].  [load_aws_credentials(profile)] is a
    helper of the repository's [utilities] module; what it returns is kept
    symbolic. *)
Inductive config_value :=
  | ConfigStr (s : string)
  | load_aws_credentials (profile : string).

(** The neuropythy calls that fetch remote data. *)
Inductive ny_load :=
  | hcp_subject (sid : N)
  | freesurfer_subject (path : string).

(** [pd.read_csv(source, sep=...)]: the file is named by a string (a local
    file) or by a cloud path below an [S3Path]. *)
Inductive csv_source :=
  | LocalFile (path : string)
  | CloudFile (base : S3Path) (rel : list string).

Record read_csv := {
  source : csv_source;
  sep : option string;
}.

(** What a notebook sets up: the cloud paths it builds, the state of
    [ny.config] after its configuration cell, the subjects it loads through
    neuropythy and the tables it reads. *)
Record notebook := {
  s3_paths : list S3Path;
  ny_config : gmap string config_value;
  ny_loads : list ny_load;
  csv_reads : list read_csv;
}.

#[global] Instance config_value_eq_dec : EqDecision config_value.
Proof. solve_decision. Defined.

(** The tab character of [sep='\t']. *)
Definition tab : string := String "009"%char EmptyString.

Definition abide2_tsv : string := "/home/jovyan/shared/data/abide2/abide2.tsv".

(** The storage a URL points into. *)
Inductive store := HCP | NSD | OpenNeuro | OtherBucket (name : string).

#[global] Instance store_eq_dec : EqDecision store.
Proof. solve_decision. Defined.

(** The bucket of [s3://bucket/key...]. *)
Definition bucket (u : string) : string := default "" (parts u "" !! 2).

Definition store_of_url (u : string) : store :=
  let b := bucket u in
  if decide (b = "hcp-openaccess") then HCP
  else if decide (b = "natural-scenes-dataset") then NSD
  else if decide (b = "openneuro.org") then OpenNeuro
  else OtherBucket b.

(** One remote access of a notebook: through a cloud path and the client it
    was built with, or through neuropythy under the notebook's [ny.config]. *)
Inductive access :=
  | ViaS3Client (p : S3Path)
  | ViaNeuropythy (l : ny_load) (config : gmap string config_value).

Definition accesses (nb : notebook) : list access :=
  (ViaS3Client <$> s3_paths nb)
  ++ ((λ l, ViaNeuropythy l (ny_config nb)) <$> ny_loads nb).

Definition access_store (a : access) : store :=
  match a with
  | ViaS3Client p => store_of_url (url p)
  | ViaNeuropythy (hcp_subject _) _ => HCP
  | ViaNeuropythy (freesurfer_subject u) _ => store_of_url u
  end.

(** *** The notebooks *)

(** rokem-ml/01-preliminaries.ipynb *)
Module Preliminaries.
Definition data : read_csv :=
  {| source := LocalFile "/home/jovyan/shared/data/abide2/abide2.tsv";
     sep := Some tab |}.
Definition contents : notebook :=
  {| s3_paths := []; ny_config := ∅; ny_loads := []; csv_reads := [data] |}.
End Preliminaries.

(** 4. Validation (src/unnamed/part_006) *)
Module Validation.
Definition data : read_csv :=
  {| source := LocalFile "/home/jovyan/shared/data/abide2/abide2.tsv";
     sep := Some tab |}.
Definition contents : notebook :=
  {| s3_paths := []; ny_config := ∅; ny_loads := []; csv_reads := [data] |}.
End Validation.

(** 5. Model selection (src/unnamed/part_002) *)
Module ModelSelection.
Definition data : read_csv :=
  {| source := LocalFile "/home/jovyan/shared/data/abide2/abide2.tsv";
     sep := Some tab |}.
Definition contents : notebook :=
  {| s3_paths := []; ny_config := ∅; ny_loads := []; csv_reads := [data] |}.
End ModelSelection.

(** rokem-ml/06-dimensionality-reduction.ipynb *)
Module DimensionalityReduction.
Definition data : read_csv :=
  {| source := LocalFile "/home/jovyan/shared/data/abide2/abide2.tsv";
     sep := Some tab |}.
Definition contents : notebook :=
  {| s3_paths := []; ny_config := ∅; ny_loads := []; csv_reads := [data] |}.
End DimensionalityReduction.

(** rokem-ml/03-overfitting.ipynb (its first notebook) and
    benson-deep-learning/introduction-to-pytorch.ipynb build no cloud path,
    do not use neuropythy and read no table. *)
Module Overfitting.
Definition contents : notebook :=
  {| s3_paths := []; ny_config := ∅; ny_loads := []; csv_reads := [] |}.
End Overfitting.

Module IntroductionToPytorch.
Definition contents : notebook :=
  {| s3_paths := []; ny_config := ∅; ny_loads := []; csv_reads := [] |}.
End IntroductionToPytorch.

(** Introduction to Python Paths using pathlib (src/unnamed/part_003) *)
Module PathsIntro.
Definition cache_path : list string := Path "/tmp/cache".
Definition make_cache_dir : cell () := mkdir_if_missing cache_path.
Definition client : S3Client :=
  {| local_cache_dir := Some cache_path;
     profile_name := None;
     no_sign_request := true |}.
Definition nsd_base_path : S3Path :=
  mkS3Path "s3://natural-scenes-dataset/" client.
Definition contents : notebook :=
  {| s3_paths := [nsd_base_path]; ny_config := ∅; ny_loads := [];
     csv_reads := [] |}.
End PathsIntro.

(** The Human Connectome Project (src/unnamed/part_001) *)
Module HumanConnectome.
Definition cache_path : list string := Path "/tmp/cache".
Definition make_cache_dir : cell () := mkdir_if_missing cache_path.
Definition hcp_base_path : S3Path :=
  {| url := "s3://hcp-openaccess/HCP_1200/";
     client := {| local_cache_dir := Some cache_path;
                  profile_name := Some "hcp";
                  no_sign_request := false |} |}.
Definition contents : notebook :=
  {| s3_paths := [hcp_base_path]; ny_config := ∅; ny_loads := [];
     csv_reads := [] |}.
End HumanConnectome.

(** The HCP 7 Tesla Retinotopy Dataset (src/unnamed/part_000) *)
Module HcpRetinotopy.
Definition config : gmap string config_value :=
  <["data_cache_root" := ConfigStr "/tmp/cache"]>
  (<["hcp_credentials" := load_aws_credentials "hcp"]> ∅).
Definition sub : ny_load := hcp_subject 111312%N.
Definition contents : notebook :=
  {| s3_paths := []; ny_config := config; ny_loads := [sub];
     csv_reads := [] |}.
End HcpRetinotopy.

(** The Natural Scenes Dataset (src/unnamed/part_004) *)
Module NaturalScenes.
Definition cache_path : list string := Path "/tmp/cache".
Definition make_cache_dir : cell () := mkdir_if_missing cache_path.
Definition nsd_base_path : S3Path :=
  {| url := "s3://natural-scenes-dataset/";
     client := {| no_sign_request := true;
                  local_cache_dir := Some cache_path;
                  profile_name := None |} |}.
Definition config : gmap string config_value :=
  <["data_cache_root" := ConfigStr "/tmp/cache"]> ∅.
Definition sub : ny_load :=
  freesurfer_subject "s3://natural-scenes-dataset/nsddata/freesurfer/subj01".
Definition contents : notebook :=
  {| s3_paths := [nsd_base_path]; ny_config := config; ny_loads := [sub];
     csv_reads := [] |}.
End NaturalScenes.

(** Datasets on OpenNeuro.org (src/unnamed/part_005) *)
Module OpenNeuroDatasets.
Definition cache_path : list string := Path "/tmp/cache".
Definition make_cache_dir : cell () := mkdir_if_missing cache_path.
Definition nyu_base_path : S3Path :=
  {| url := "s3://openneuro.org/ds003787/";
     client := {| no_sign_request := true;
                  local_cache_dir := Some cache_path;
                  profile_name := None |} |}.
Definition participants : read_csv :=
  {| source := CloudFile nyu_base_path ["participants.tsv"];
     sep := Some tab |}.
Definition config : gmap string config_value :=
  <["data_cache_root" := ConfigStr "/tmp/cache"]> ∅.
Definition sub : ny_load :=
  freesurfer_subject
    "s3://openneuro.org/ds003787/derivatives/freesurfer/sub-wlsubj042".
Definition contents : notebook :=
  {| s3_paths := [nyu_base_path]; ny_config := config; ny_loads := [sub];
     csv_reads := [participants] |}.
End OpenNeuroDatasets.

(** The Healthy Brain Network dataset (second notebook of
    src/rokem-ml/03-overfitting.ipynb) *)
Module HealthyBrainNetwork.
Definition cache_path : list string := Path "/tmp/cache".
Definition make_cache_dir : cell () := mkdir_if_missing cache_path.
Definition client : S3Client :=
  {| local_cache_dir := Some cache_path;
     profile_name := None;
     no_sign_request := true |}.
Definition hbn_base_path : S3Path :=
  mkS3Path "s3://fcp-indi/" client.
Definition hbn_pod2_path : list string :=
  ["data"; "Projects"; "HBN"; "BIDS_curated"; "derivatives"].
Definition participants_table : read_csv :=
  {| source := CloudFile hbn_base_path
                 (hbn_pod2_path ++ ["qsiprep"; "participants.tsv"]);
     sep := Some tab |}.
Definition tract_profiles : read_csv :=
  {| source := CloudFile hbn_base_path
                 (hbn_pod2_path ++
                  ["afq"; "sub-NDARAA306NT2"; "ses-HBNsiteRU";
                   "sub-NDARAA306NT2_ses-HBNsiteRU_acq-64dir_space-T1w_desc-preproc_dwi_space-RASMM_model-CSD_desc-prob-afq_profiles.csv"]);
     sep := None |}.
Definition contents : notebook :=
  {| s3_paths := [hbn_base_path]; ny_config := ∅; ny_loads := [];
     csv_reads := [participants_table; tract_profiles] |}.
End HealthyBrainNetwork.

(** rokem-benson-datashowcase/003-hcp-diffusion.ipynb *)
Module HcpDiffusion.
Definition cache_path : list string := Path "/tmp/cache".
Definition make_cache_dir : cell () := mkdir_if_missing cache_path.
Definition hcp_base_path : S3Path :=
  {| url := "s3://hcp-openaccess/";
     client := {| local_cache_dir := Some cache_path;
                  profile_name := Some "hcp";
                  no_sign_request := false |} |}.
Definition hcp_derivs_path : S3Path :=
  {| url := "s3://open-neurodata/rokem/hcp1200/afq";
     client := {| local_cache_dir := Some cache_path;
                  profile_name := None;
                  no_sign_request := true |} |}.
Definition tract_profiles : read_csv :=
  {| source := CloudFile hcp_derivs_path
                 ["sub-100206"; "ses-01";
                  "sub-100206_dwi_space-RASMM_model-CSD_desc-prob-afq_profiles.csv"];
     sep := None |}.
Definition contents : notebook :=
  {| s3_paths := [hcp_base_path; hcp_derivs_path]; ny_config := ∅;
     ny_loads := []; csv_reads := [tract_profiles] |}.
End HcpDiffusion.

(** The notebooks of the repository. *)
Definition repository : list notebook :=
  [ Preliminaries.contents; Overfitting.contents; Validation.contents;
    ModelSelection.contents; DimensionalityReduction.contents;
    IntroductionToPytorch.contents; PathsIntro.contents;
    HumanConnectome.contents; HcpRetinotopy.contents;
    NaturalScenes.contents; OpenNeuroDatasets.contents;
    HealthyBrainNetwork.contents; HcpDiffusion.contents ].

(** The cells that create the cache directory, one per notebook that has
    one. *)
Definition cache_cells : list (cell ()) :=
  [ PathsIntro.make_cache_dir; HumanConnectome.make_cache_dir;
    NaturalScenes.make_cache_dir; OpenNeuroDatasets.make_cache_dir;
    HealthyBrainNetwork.make_cache_dir; HcpDiffusion.make_cache_dir ].

(** The conventions of C5, for one notebook. *)
Definition follows_path_conventions (nb : notebook) : Prop :=
  Forall (λ p, local_cache_dir (client p) = Some (Path "/tmp/cache"))
    (s3_paths nb) ∧
  (ny_loads nb = [] ∨
   ny_config nb !! "data_cache_root" = Some (ConfigStr "/tmp/cache")) ∧
  Forall (λ r, match source r with
               | LocalFile f => f = abide2_tsv ∧ sep r = Some tab
               | CloudFile _ _ => True
               end) (csv_reads nb).

(** C6 as the specification words it, for one remote access. *)
Definition signs_as_specified (a : access) : Prop :=
  (access_store a = HCP →
     ∃ p, a = ViaS3Client p ∧ profile_name (client p) = Some "hcp") ∧
  (access_store a = NSD ∨ access_store a = OpenNeuro →
     ∃ p, a = ViaS3Client p ∧ no_sign_request (client p) = true).

(** C6 as the notebooks have it, for one remote access. *)
Definition signs_as_coded (a : access) : Prop :=
  match a with
  | ViaS3Client p =>
      (store_of_url (url p) = HCP →
         profile_name (client p) = Some "hcp" ∧
         no_sign_request (client p) = false) ∧
      (store_of_url (url p) = NSD ∨ store_of_url (url p) = OpenNeuro →
         no_sign_request (client p) = true ∧ profile_name (client p) = None)
  | ViaNeuropythy (hcp_subject _) config =>
      config !! "hcp_credentials" = Some (load_aws_credentials "hcp")
  | ViaNeuropythy (freesurfer_subject u) config =>
      (store_of_url u = NSD ∨ store_of_url u = OpenNeuro) ∧
      config !! "hcp_credentials" = None
  end.

End DataAccess.

(** ** Cumulative variance explained (06-dimensionality-reduction) *)

Module VarianceExplained.
#[local] Open Scope Q_scope.

(** [np.cumsum(a)]: [out[0] = a[0]] and [out[i] = out[i-1] + a[i]].
    The ratios are modelled as exact rationals. *)
Fixpoint cumsum_from (acc : Q) (a : list Q) : list Q :=
  match a with
  | [] => []
  | x :: a' => (acc + x) :: cumsum_from (acc + x) a'
  end.

Definition cumsum (a : list Q) : list Q :=
  match a with
  | [] => []
  | x :: a' => x :: cumsum_from x a'
  end.

(** The curve of [plt.plot(np.cumsum(pca.explained_variance_ratio_), lw=3)]. *)
Definition cumulative_variance (explained_variance_ratio_ : list Q) : list Q :=
  cumsum explained_variance_ratio_.

Definition total (a : list Q) : Q := foldr Qplus 0 a.

End VarianceExplained.

(** ** Gradient descent on [(x - 2)**2] (introduction-to-pytorch) *)

Module GradientDescent.
#[local] Open Scope Q_scope.

(** The tensor operations [func] uses.  Tensor values are modelled as exact
    rationals. *)
Class TensorOps (T : Type) := {
  sub_scalar : T → Q → T;
  pow_scalar : T → nat → T;
}.

#[global] Instance Q_ops : TensorOps Q := {|
  sub_scalar x c := x - c;
  pow_scalar x n := x ^ Z.of_nat n;
|}.

(** A value together with its derivative with respect to the parameter
    being optimized: what autograd records for a tensor that depends on a
    leaf with [requires_grad=True]. *)
Record tracked := Tracked { value : Q; deriv : Q }.

#[global] Instance tracked_ops : TensorOps tracked := {|
  sub_scalar t c := Tracked (value t - c) (deriv t);
  pow_scalar t n :=
    Tracked (value t ^ Z.of_nat n)
            (inject_Z (Z.of_nat n) * value t ^ Z.of_nat (n - 1) * deriv t);
|}.

(** [[
def func(x):
    return (x - 2)**2
]] *)
Definition func {T} `{TensorOps T} (x : T) : T :=
  pow_scalar (sub_scalar x 2) 2.

(** The parameter [x]: its data and its [.grad] ([None] until a backward
    pass fills it). *)
Record param := Param { data : Q; grad : option Q }.

(** [optimizer.zero_grad()] *)
Definition zero_grad (x : param) : param := Param (data x) None.

(** [loss = func(x); loss.backward()]: the derivative of the loss with
    respect to [x] is accumulated into [x.grad]. *)
Definition backward (x : param) : param :=
  let loss := func (Tracked (data x) 1) in
  Param (data x)
        (Some (match grad x with
               | None => deriv loss
               | Some g => g + deriv loss
               end)).

(** [optimizer.step()] for [torch.optim.SGD([x], lr=lr)]: plain gradient
    descent, [x.add_(x.grad, alpha=-lr)]. *)
Definition sgd_step (lr : Q) (x : param) : param :=
  match grad x with
  | None => x
  | Some g => Param (data x + (- lr) * g) (grad x)
  end.

Definition lr : Q := 1 # 10.

(** One pass through the body of the loop. *)
Definition iteration (x : param) : param :=
  sgd_step lr (backward (zero_grad x)).

(** [x = torch.tensor(5.0, requires_grad=True)] *)
Definition x0 : param := Param 5 None.

(** The parameter after [n] passes of the loop. *)
Definition after (n : nat) : param := Nat.iter n iteration x0.

(** [for step_number in range(40): ...]: the parameter the last cell line
    prints. *)
Definition x_final : param := after 40.

End GradientDescent.

(** ** The README of the cache directory (src/unnamed/part_003) *)

Module ReadmeCell.
Import Pathlib DataAccess.

(** [path / name] for a relative [name]; an absolute [name] replaces the
    path, as in [pathlib]. *)
Definition truediv (p : list string) (name : string) : list string :=
  match name with
  | String "/"%char _ => Path name
  | _ => p ++ Path name
  end.

(** [readme_filename = cache_path / 'README.md'] *)
Definition readme_filename : list string :=
  truediv PathsIntro.cache_path "README.md".

(** The line feed [print] ends each line with. *)
Definition nl : string := String "010"%char EmptyString.

(** What the five [print(..., file=file)] calls write. *)
Definition readme_text : string :=
  "# Local Dataset Cache Directory" +:+ nl +:+
  "" +:+ nl +:+
  "This directory contains cache data downloaded from the" +:+ nl +:+
  "various datasets. The subdirectories in this directory" +:+ nl +:+
  "should be safe to delete." +:+ nl.

(** [with p.open('wt') as file: ...] writing [text]: the file is created
    or truncated.  [None] stands for the [OSError] that [open] raises when
    [p] is a directory or its parent is not an existing directory. *)
Definition open_wt (p : list string) (text : string)
    (fs : gmap (list string) node) : option (gmap (list string) node) :=
  match node_at fs p with
  | Some Dir => None
  | _ =>
      match node_at fs (parent p) with
      | Some Dir => Some (<[p := File text]> fs)
      | _ => None
      end
  end.

(** The cell that writes the README. *)
Definition write_readme (fs : gmap (list string) node)
    : option (gmap (list string) node) :=
  open_wt readme_filename readme_text fs.

(** [! cat /tmp/cache/README.md]: the content of the file, if it is one. *)
Definition cat (fs : gmap (list string) node) (p : list string)
    : option string :=
  match node_at fs p with
  | Some (File content) => Some content
  | _ => None
  end.

End ReadmeCell.

(** ** The layer stacks (introduction-to-pytorch) *)

Module Networks.

(** The layers the two models are built from, with the constructor
    arguments the notebook gives ([padding] and [dilation] keep their
    defaults 0 and 1). *)
Inductive layer :=
  | Conv2d (in_channels out_channels kernel_size stride : nat)
  | ReLU
  | Flatten
  | Linear (in_features out_features : nat).

(** The size a convolution leaves of one spatial dimension; [None] when the
    kernel is larger than the input, which PyTorch refuses. *)
Definition conv_size (kernel_size stride : nat) (h : nat) : option nat :=
  if decide (kernel_size ≤ h) then Some ((h - kernel_size) / stride + 1)
  else None.

(** The shape a layer gives to an input of a given shape, as PyTorch
    documents it for each layer; [None] stands for the [RuntimeError] on a
    shape the layer does not accept.  [Conv2d] takes a batch [N, C, H, W] or
    a single [C, H, W]; [Flatten] keeps the first dimension and multiplies
    the others; [Linear] replaces the last dimension. *)
Definition layer_shape (l : layer) (shape : list nat) : option (list nat) :=
  match l with
  | Conv2d cin cout k s =>
      match shape with
      | [n; c; h; w] =>
          if decide (c = cin) then
            h' ← conv_size k s h; w' ← conv_size k s w;
            Some [n; cout; h'; w']
          else None
      | [c; h; w] =>
          if decide (c = cin) then
            h' ← conv_size k s h; w' ← conv_size k s w;
            Some [cout; h'; w']
          else None
      | _ => None
      end
  | ReLU => Some shape
  | Flatten =>
      match shape with
      | [] => Some [1]
      | n :: rest => Some [n; foldr Nat.mul 1 rest]
      end
  | Linear fin fout =>
      match reverse shape with
      | d :: rest => if decide (d = fin) then Some (reverse (fout :: rest))
                     else None
      | [] => None
      end
  end.

(** [nn.Sequential] of a list of layers, on shapes. *)
Definition Sequential (layers : list layer) (shape : list nat)
    : option (list nat) :=
  foldl (λ acc l, acc ≫= layer_shape l) (Some shape) layers.

(** The shapes after each layer of a stack, for as long as they exist. *)
Fixpoint shapes_through (layers : list layer) (shape : list nat)
    : list (list nat) :=
  match layers with
  | [] => []
  | l :: layers' =>
      match layer_shape l shape with
      | Some shape' => shape' :: shapes_through layers' shape'
      | None => []
      end
  end.

(** [NeuralNetwork]: [self.flatten] and [self.linear_relu_stack]. *)
Module NeuralNetwork.
Definition linear_relu_stack : list layer :=
  [ Linear (28 * 28) 512; ReLU; Linear 512 512; ReLU; Linear 512 10; ReLU ].
Definition forward (x : list nat) : option (list nat) :=
  x ← layer_shape Flatten x;
  Sequential linear_relu_stack x.
End NeuralNetwork.

(** [ConvolutionalNeuralNetwork]: [self.conv2d_relu_stack]. *)
Module ConvolutionalNeuralNetwork.
Definition conv2d_relu_stack : list layer :=
  [ Conv2d 1 2 3 1;
    Conv2d 2 2 3 1;
    ReLU;
    Conv2d 2 8 5 2;
    Conv2d 8 8 3 1;
    ReLU;
    Conv2d 8 10 7 2;
    Flatten ].
Definition forward (x : list nat) : option (list nat) :=
  Sequential conv2d_relu_stack x.
End ConvolutionalNeuralNetwork.

(** The side the convolutions of [conv2d_relu_stack] leave of a side [h]. *)
Definition cnn_side (h : nat) : option nat :=
  h ← conv_size 3 1 h; h ← conv_size 3 1 h; h ← conv_size 5 2 h;
  h ← conv_size 3 1 h; conv_size 7 2 h.

End Networks.

(** ** The polar angle of the visual field (src/unnamed/part_000) *)

Module VisualField.
#[local] Open Scope Q_scope.

(** [np.mod(x, m)] on floating-point numbers: the remainder with the sign of
    [m], [x - m * floor(x / m)].  Numbers are modelled as exact rationals. *)
Definition np_mod (x m : Q) : Q := x - m * inject_Z (Qfloor (x / m)).

(** [[
vfield_angle = np.mod(90 - 180/np.pi*vfield_angle + 180, 360) - 180
]]
    [pi] is the value of [np.pi] (a floating-point constant, hence a
    rational number). *)
Definition polar_angle (pi : Q) (vfield_angle : Q) : Q :=
  np_mod (90 - 180 / pi * vfield_angle + 180) 360 - 180.

End VisualField.

(** ** Standardizing the columns (06-dimensionality-reduction) *)

Module Standardize.
#[local] Open Scope Q_scope.

(** A column of the data frame, as exact rationals, and its sum. *)
Definition sum (x : list Q) : Q := foldr Qplus 0 x.

(** [x.mean()] *)
Definition mean (x : list Q) : Q :=
  sum x / inject_Z (Z.of_nat (length x)).

(** The sample variance (pandas divides by [n - 1]); [x.std()] is its
    square root. *)
Definition variance (x : list Q) : Q :=
  sum ((λ xi, (xi - mean x) * (xi - mean x)) <$> x)
  / inject_Z (Z.of_nat (length x - 1)).

Section Column.
(** [x.std()] is library code and, being a square root, is taken as a
    parameter. *)
Variable std : list Q → Q.

(** [lambda x: (x - x.mean()) / x.std()], applied to a column. *)
Definition standardize (x : list Q) : list Q :=
  (λ xi, (xi - mean x) / std x) <$> x.

End Column.

End Standardize.

(** ** The coefficient path (plot_coef_path) *)

Module CoefPath.
#[local] Open Scope Q_scope.

(** A two-dimensional array as the list of its rows; the number of columns
    is carried beside it (an array of no rows still has columns). *)
Definition array2d := list (list Q).

(** [np.zeros((rows, cols))] *)
Definition zeros (rows cols : nat) : array2d :=
  replicate rows (replicate cols 0).

(** [coefs[:, i] = v] on an array of [cols] columns.  numpy raises
    IndexError when the array has no column [i], and ValueError when [v]
    has neither one entry per row nor a single entry (which it would copy
    into every row); [None] stands for either. *)
Definition set_column (cols : nat) (coefs : array2d) (i : nat) (v : list Q)
  : option array2d :=
  if decide (i < cols)%nat then
    if decide (length v = length coefs) then
      Some (zip_with (λ row vi, <[i := vi]> row) coefs v)
    else
      match v with
      | [c] => Some ((λ row, <[i := c]> row) <$> coefs)
      | _ => None
      end
  else None.

(** [coefs[:, i]] and [coefs.T] *)
Definition column (i : nat) (coefs : array2d) : list Q :=
  (λ row, default 0 (row !! i)) <$> coefs.

Definition T (cols : nat) (coefs : array2d) : array2d :=
  (λ i, column i coefs) <$> seq 0 cols.

Section PlotCoefPath.
(** [estimator(alpha=a, **kwargs).fit(X, y).coef_] as a function of [a]
    (scikit-learn's code), and [X.shape[1]]. *)
Variable coef_ : Q → list Q.
Variable n_features : nat.

(** One pass of the loop body. *)
Definition loop_body (cols : nat) (acc : option array2d) (ia : nat * Q)
  : option array2d :=
  coefs ← acc; set_column cols coefs ia.1 (coef_ ia.2).

(** [plot_coef_path]: the two arguments it hands to [ax.plot]. *)
Definition plot_coef_path (alpha : list Q) : option (list Q * array2d) :=
  let coefs := zeros n_features (length alpha) in
  coefs ← foldl (loop_body (length alpha)) (Some coefs) (enumerate alpha);
  Some (alpha, T (length alpha) coefs).

(** Used to state the loop invariant: the array after the loop has run over the penalties [l]: in row [j],
    the [j]-th coefficient of each fit, then the zeros not yet replaced. *)
Definition filled (cols : nat) (l : list Q) : array2d :=
  (λ j, ((λ a, default 0 (coef_ a !! j)) <$> l)
        ++ replicate (cols - length l) 0) <$> seq 0 n_features.

End PlotCoefPath.

End CoefPath.

(** * Part II: properties *)

Import KFoldLoop.

(** ** Lists *)

Lemma enumerate_snd {A} (l : list A) : (enumerate l).*2 = l.
Proof.
  unfold enumerate. apply list_eq. intros i.
  rewrite list_lookup_fmap, list_lookup_imap. by destruct (l !! i).
Qed.

Lemma elem_of_enumerate {A} (l : list A) i x :
  (i, x) ∈ enumerate l ↔ l !! i = Some x.
Proof.
  unfold enumerate. rewrite elem_of_lookup_imap. split.
  - intros (j & y & Heq & Hl). by simplify_eq.
  - intros Hl. by exists i, x.
Qed.

Lemma enumerate_snoc {A} (l : list A) x :
  enumerate (l ++ [x]) = enumerate l ++ [(length l, x)].
Proof.
  unfold enumerate. rewrite imap_app. simpl. by rewrite Nat.add_0_r.
Qed.

Lemma filter_all {A} (P : A → Prop) `{!∀ x, Decision (P x)} (l : list A) :
  Forall P l → filter P l = l.
Proof.
  induction 1 as [|a l Ha _ IH]; [done|].
  by rewrite filter_cons_True, IH.
Qed.

Lemma filter_none {A} (P : A → Prop) `{!∀ x, Decision (P x)} (l : list A) :
  Forall (λ x, ¬ P x) l → filter P l = [].
Proof.
  induction 1 as [|a l Ha _ IH]; [done|].
  by rewrite filter_cons_False.
Qed.

(** Splitting a list by a decidable predicate only reorders it. *)
Lemma filter_split_Permutation {A} (P : A → Prop) `{!∀ x, Decision (P x)}
    (l : list A) :
  filter (λ x, ¬ P x) l ++ filter P l ≡ₚ l.
Proof.
  induction l as [|a l IH]; [done|].
  rewrite !filter_cons. destruct (decide (P a)), (decide (¬ P a)); try done.
  - rewrite <- Permutation_middle. by f_equiv.
  - simpl. by f_equiv.
Qed.

Lemma filter_lt_succ {A} (f : A → nat) (l : list A) m :
  filter (λ a, f a < m) l ++ filter (λ a, f a = m) l
    ≡ₚ filter (λ a, f a < S m) l.
Proof.
  induction l as [|a l IH]; [done|].
  rewrite !filter_cons. repeat case_decide; try lia.
  - simpl. by f_equiv.
  - rewrite <- Permutation_middle. by f_equiv.
  - done.
Qed.

(** ** The folds of the manual loop *)

Section FoldFacts.
Variable K : nat.

Lemma elem_of_train inds k x :
  x ∈ train K inds k ↔ ∃ i, inds !! i = Some x ∧ i mod K ≠ k.
Proof.
  unfold train. rewrite list_elem_of_fmap. split.
  - intros ([i y] & -> & Hin). apply list_elem_of_filter in Hin as [Hk Hin].
    apply elem_of_enumerate in Hin. by exists i.
  - intros (i & Hl & Hk). exists (i, x). split; [done|].
    apply list_elem_of_filter. split; [done|]. by apply elem_of_enumerate.
Qed.

Lemma elem_of_held_out inds k x :
  x ∈ held_out K inds k ↔ ∃ i, inds !! i = Some x ∧ i mod K = k.
Proof.
  unfold held_out. rewrite list_elem_of_fmap. split.
  - intros ([i y] & -> & Hin). apply list_elem_of_filter in Hin as [Hk Hin].
    apply elem_of_enumerate in Hin. by exists i.
  - intros (i & Hl & Hk). exists (i, x). split; [done|].
    apply list_elem_of_filter. split; [done|]. by apply elem_of_enumerate.
Qed.

Lemma train_sublist inds k : train K inds k `sublist_of` inds.
Proof.
  unfold train. rewrite <- (enumerate_snd inds) at 2.
  apply fmap_sublist, sublist_filter.
Qed.

Lemma held_out_sublist inds k : held_out K inds k `sublist_of` inds.
Proof.
  unfold held_out. rewrite <- (enumerate_snd inds) at 2.
  apply fmap_sublist, sublist_filter.
Qed.

Lemma train_held_out_Permutation inds k :
  train K inds k ++ held_out K inds k ≡ₚ inds.
Proof.
  unfold train, held_out. rewrite <- fmap_app.
  rewrite <- (enumerate_snd inds) at 3. apply fmap_Permutation.
  apply (filter_split_Permutation (λ p : nat * nat, p.1 mod K = k)).
Qed.

Lemma elem_of_test inds k x :
  x ∈ test K inds k ↔ x ∈ inds ∧ x ∉ train K inds k.
Proof. unfold test. rewrite elem_of_elements. set_solver. Qed.

Lemma train_held_out_disjoint inds k x :
  NoDup inds → x ∈ train K inds k → x ∈ held_out K inds k → False.
Proof.
  intros Hnd (i & Hi & Hik)%elem_of_train (j & Hj & Hjk)%elem_of_held_out.
  assert (i = j) by (eapply NoDup_lookup; eauto). congruence.
Qed.

(** With distinct row indices, the set difference holds exactly the rows of
    the left-out residue class. *)
Lemma test_held_out inds k :
  NoDup inds → test K inds k ≡ₚ held_out K inds k.
Proof.
  intros Hnd. apply NoDup_Permutation.
  - apply NoDup_elements.
  - eapply sublist_NoDup; [done|apply held_out_sublist].
  - intros x. rewrite elem_of_test. split.
    + intros [Hin Hnt]. apply list_elem_of_lookup in Hin as [i Hi].
      apply elem_of_held_out. exists i. split; [done|].
      destruct (decide (i mod K = k)) as [|Hne]; [done|].
      exfalso. apply Hnt, elem_of_train. eauto.
    + intros Hh. split.
      * eapply elem_of_sublist; [done|apply held_out_sublist].
      * intros Ht. by eapply train_held_out_disjoint.
Qed.

End FoldFacts.

Lemma shuffled_NoDup n inds : shuffled n inds → NoDup inds.
Proof. intros ->. apply NoDup_seq. Qed.

Lemma shuffled_elem_of n inds x : shuffled n inds → (x ∈ inds ↔ x < n).
Proof. intros ->. rewrite elem_of_seq. lia. Qed.

(** C1. In the manual k-fold loop ([K = 5]), for every fold [k] the train
    list and the test list are disjoint and together hold every row index
    exactly once; and every row index lies in the test list of exactly one
    fold and in the train list of each of the other folds. *)
Theorem kfold_partition (n : nat) (inds : list nat) :
  shuffled n inds →
  (∀ k, k < K →
     (∀ x, x ∈ train K inds k → x ∉ test K inds k) ∧
     train K inds k ++ test K inds k ≡ₚ seq 0 n) ∧
  (∀ x, x < n →
     ∃ k, k < K ∧ x ∈ test K inds k ∧ (x ∉ train K inds k) ∧
          (∀ k', k' < K → k' ≠ k →
             x ∈ train K inds k' ∧ x ∉ test K inds k')).
Proof.
  intros Hsh. pose proof (shuffled_NoDup _ _ Hsh) as Hnd. split.
  - intros k _. split.
    + intros x Ht Hx. apply elem_of_test in Hx as [_ Hx]. done.
    + rewrite (test_held_out K inds k Hnd), train_held_out_Permutation.
      exact Hsh.
  - intros x Hx. apply (shuffled_elem_of _ _ _ Hsh) in Hx.
    apply list_elem_of_lookup in Hx as [i Hi].
    assert (Hin : x ∈ inds) by (apply list_elem_of_lookup; eauto).
    exists (i mod K). split; [apply Nat.mod_upper_bound; done|].
    assert (Hnt : x ∉ train K inds (i mod K)).
    { intros Ht. eapply (train_held_out_disjoint K); [done..|].
      apply elem_of_held_out; eauto. }
    split; [by apply elem_of_test|]. split; [done|].
    intros k' _ Hk'.
    assert (Ht : x ∈ train K inds k') by (apply elem_of_train; eauto).
    split; [done|]. rewrite elem_of_test. tauto.
Qed.

Lemma kfold_partition_witness :
  (∀ k, k < K →
     (∀ x, x ∈ train K [3; 0; 6; 2; 5; 1; 4] k →
           x ∉ test K [3; 0; 6; 2; 5; 1; 4] k) ∧
     train K [3; 0; 6; 2; 5; 1; 4] k ++ test K [3; 0; 6; 2; 5; 1; 4] k
       ≡ₚ seq 0 7) ∧
  (∀ x, x < 7 →
     ∃ k, k < K ∧ x ∈ test K [3; 0; 6; 2; 5; 1; 4] k ∧
          (x ∉ train K [3; 0; 6; 2; 5; 1; 4] k) ∧
          (∀ k', k' < K → k' ≠ k →
             x ∈ train K [3; 0; 6; 2; 5; 1; 4] k' ∧
             x ∉ test K [3; 0; 6; 2; 5; 1; 4] k')).
Proof.
  apply (kfold_partition 7 [3; 0; 6; 2; 5; 1; 4]).
  unfold shuffled.
  rewrite <- (merge_sort_Permutation (≤) [3; 0; 6; 2; 5; 1; 4]).
  vm_compute. reflexivity.
Defined.

(** The two lists of the first fold on that shuffle, as the cell computes
    them (positions 0 and 5 are left out of the train list). *)
Example train_fold0 : train K [3; 0; 6; 2; 5; 1; 4] 0 = [0; 6; 2; 5; 4].
Proof. reflexivity. Qed.

Example test_fold0 : test K [3; 0; 6; 2; 5; 1; 4] 0 ≡ₚ [3; 1].
Proof. vm_compute. apply perm_swap || reflexivity. Qed.

(** ** The residue classes as K consecutive blocks *)

Section Blocks.
Variable K : nat.
Hypothesis K_pos : 0 < K.

(** Quotient and remainder of a successor. *)
Lemma div_mod_succ n :
  (n mod K = K - 1 ∧ S n / K = S (n / K) ∧ S n mod K = 0) ∨
  (n mod K ≠ K - 1 ∧ S n / K = n / K ∧ S n mod K = S (n mod K)).
Proof.
  pose proof (Nat.div_mod_eq n K) as Hn.
  pose proof (Nat.mod_upper_bound n K ltac:(lia)) as Hr.
  destruct (decide (n mod K = K - 1)) as [Heq|Hne]; [left|right].
  - split; [done|]. split.
    + symmetry. apply (Nat.div_unique _ _ _ 0); lia.
    + symmetry. apply (Nat.mod_unique _ _ (S (n / K))); lia.
  - split; [done|]. split.
    + symmetry. apply (Nat.div_unique _ _ _ (S (n mod K))); lia.
    + symmetry. apply (Nat.mod_unique _ _ (n / K)); lia.
Qed.

Lemma fold_size_0 k : fold_size K 0 k = 0.
Proof.
  unfold fold_size. rewrite Nat.Div0.div_0_l, Nat.Div0.mod_0_l.
  case_decide; lia.
Qed.

Lemma fold_size_S n k :
  k < K →
  fold_size K (S n) k
    = fold_size K n k + (if decide (n mod K = k) then 1 else 0).
Proof.
  intros Hk. unfold fold_size.
  destruct (div_mod_succ n) as [(Hm & -> & ->)|(Hm & -> & ->)];
    repeat case_decide; lia.
Qed.

(** The k-th residue class of the positions of [inds] has the size of the
    library's k-th fold. *)
Lemma length_held_out inds k :
  k < K → length (held_out K inds k) = fold_size K (length inds) k.
Proof.
  intros Hk. unfold held_out. rewrite length_fmap.
  induction inds as [|x inds IH] using rev_ind.
  - by rewrite fold_size_0.
  - rewrite enumerate_snoc, filter_app, !length_app, IH. simpl length.
    rewrite Nat.add_1_r, fold_size_S by done. f_equal.
    rewrite filter_cons, filter_nil. simpl. by case_decide.
Qed.

Lemma concat_held_out_lt inds m :
  concat (held_out K inds <$> seq 0 m)
    ≡ₚ (filter (λ p : nat * nat, p.1 mod K < m) (enumerate inds)).*2.
Proof.
  induction m as [|m IH].
  - simpl. rewrite filter_none; [done|].
    apply Forall_forall. intros; lia.
  - rewrite seq_S, fmap_app, concat_app, IH. simpl. rewrite app_nil_r.
    unfold held_out. rewrite <- fmap_app. apply fmap_Permutation.
    apply (filter_lt_succ (λ p : nat * nat, p.1 mod K)).
Qed.

(** Listing the residue classes one after the other only reorders the
    shuffled indices. *)
Lemma concat_held_out inds :
  concat (held_out K inds <$> seq 0 K) ≡ₚ inds.
Proof.
  rewrite concat_held_out_lt.
  rewrite filter_all; [by rewrite enumerate_snd|].
  apply Forall_forall. intros p _. apply Nat.mod_upper_bound. lia.
Qed.

End Blocks.

Lemma regroup_Permutation inds : regroup inds ≡ₚ inds.
Proof. apply concat_held_out. unfold K. lia. Qed.

Lemma KFold_sizes_held_out inds :
  KFold_sizes (length inds) K = length <$> (held_out K inds <$> seq 0 K).
Proof.
  unfold KFold_sizes. rewrite <- list_fmap_compose.
  apply list_fmap_ext. intros i k Hk%lookup_seq. simpl.
  symmetry. apply length_held_out; unfold K in *; lia.
Qed.

(** ** The library's folds *)

Lemma iloc_seq rows a m :
  a + m ≤ length rows → iloc rows (seq a m) = take m (drop a rows).
Proof.
  revert a. induction m as [|m IH]; intros a Hlen; [done|].
  destruct (lookup_lt_is_Some_2 rows a ltac:(lia)) as [x Hx].
  rewrite (drop_S _ _ _ Hx). simpl. unfold iloc in *. simpl.
  rewrite Hx. simpl. f_equal. apply IH. lia.
Qed.

Lemma iloc_app rows idx1 idx2 :
  iloc rows (idx1 ++ idx2) = iloc rows idx1 ++ iloc rows idx2.
Proof. apply omap_app. Qed.

Lemma test_index_seq n current sz :
  current + sz ≤ n → take sz (drop current (seq 0 n)) = seq current sz.
Proof.
  intros Hle. rewrite drop_seq, take_seq. simpl. f_equal. lia.
Qed.

Lemma train_index_seq n current sz :
  current + sz ≤ n →
  filter (λ i, i ∉ seq current sz) (seq 0 n)
    = seq 0 current ++ seq (current + sz) (n - (current + sz)).
Proof.
  intros Hle.
  replace n with (current + (sz + (n - (current + sz)))) at 1 by lia.
  rewrite !seq_app, !filter_app. simpl.
  rewrite (filter_none _ (seq current sz)), app_nil_l.
  - rewrite !filter_all; [done|..];
      apply Forall_forall; intros i; rewrite !elem_of_seq; lia.
  - apply Forall_forall. intros i Hi Hn. done.
Qed.

(** ** The loop against the library call *)

Section CrossValidationFacts.
Context {Model Score : Type}.
Variable fit : list nat → Model.
Variable score : Model → list nat → Score.
Variable mean : list Score → Score.
Variable zero : Score.

(** What the loop leaves in the two arrays. *)
Lemma kfold_loop_unfold inds :
  kfold_loop fit score zero inds =
    ((λ k, score (fit (train K inds k)) (train K inds k)) <$> seq 0 K,
     (λ k, score (fit (train K inds k)) (test K inds k)) <$> seq 0 K).
Proof. reflexivity. Qed.

(** The library's folds on a dataset laid out block after block. *)
Lemma KFold_from_concat post : ∀ pre rows,
  rows = concat (pre ++ post) →
  (λ s : list nat * list nat, score (fit (iloc rows s.1)) (iloc rows s.2))
    <$> KFold_from (length rows) (length (concat pre)) (length <$> post)
  = held_out_scores fit score pre post.
Proof.
  induction post as [|f post IH]; intros pre rows Hrows; [done|].
  assert (Hsplit : rows = concat pre ++ f ++ concat post).
  { by rewrite Hrows, concat_app. }
  assert (Hlen : length (concat pre) + length f ≤ length rows).
  { rewrite Hsplit, !length_app. lia. }
  cbn [fmap list_fmap KFold_from held_out_scores]. simpl.
  rewrite (test_index_seq _ _ _ Hlen), (train_index_seq _ _ _ Hlen).
  rewrite iloc_app, !iloc_seq by lia. simpl.
  f_equal.
  - assert (take (length (concat pre)) (drop 0 rows) = concat pre) as ->.
    { by rewrite Hsplit, drop_0, take_app_length. }
    assert (drop (length (concat pre) + length f) rows = concat post)
      as ->.
    { rewrite Hsplit, <- drop_drop, drop_app_length. apply drop_app_length. }
    assert (take (length f) (drop (length (concat pre)) rows) = f) as ->.
    { by rewrite Hsplit, drop_app_length, take_app_length. }
    rewrite take_ge; [done|]. rewrite Hsplit, !length_app. lia.
  - rewrite <- (IH (pre ++ [f]) rows).
    + rewrite concat_app, length_app. simpl. by rewrite app_nil_r.
    + by rewrite <- app_assoc.
Qed.

(** Least squares and its R² do not depend on the order in which the rows
    of a sample are listed. *)
Hypothesis fit_perm : ∀ l l', l ≡ₚ l' → fit l = fit l'.
Hypothesis score_perm : ∀ est l l', l ≡ₚ l' → score est l = score est l'.

Lemma held_out_scores_loop inds post : ∀ pre,
  NoDup inds →
  pre ++ post = held_out K inds <$> seq 0 K →
  held_out_scores fit score pre post =
    (λ k, score (fit (train K inds k)) (test K inds k))
      <$> seq (length pre) (length post).
Proof.
  induction post as [|f post IH]; intros pre Hnd Hfolds; [done|].
  assert (Hf : f = held_out K inds (length pre)).
  { assert (Hl : (pre ++ f :: post) !! length pre = Some f)
      by apply list_lookup_middle, eq_refl.
    rewrite Hfolds, list_lookup_fmap in Hl.
    destruct (seq 0 K !! length pre) as [k|] eqn:Hk; [|done].
    apply lookup_seq in Hk as [-> _]. by simplify_eq/=. }
  assert (Htrain : concat pre ++ concat post ≡ₚ train K inds (length pre)).
  { apply (inj (.++ f)). rewrite <- app_assoc, (comm (++) _ f).
    transitivity inds.
    - etransitivity; [|apply regroup_Permutation]. unfold regroup.
      by rewrite <- Hfolds, concat_app.
    - subst f. symmetry. apply train_held_out_Permutation. }
  simpl. f_equal.
  - rewrite (fit_perm _ _ Htrain). apply score_perm.
    subst f. symmetry. by apply test_held_out.
  - rewrite (IH (pre ++ [f])); [|done|by rewrite <- app_assoc].
    rewrite length_app. simpl. by rewrite Nat.add_1_r.
Qed.

(** C2. The explicit loop and [cross_val_score(est, X_small, y, cv=K)]
    carry out the same procedure up to the shuffling of the rows: on the
    rows of the shuffle, regrouped fold after fold (a rearrangement of the
    shuffled row indices), the library call returns, fold by fold, the test
    scores the loop stores in [test_r2], and hence the same mean. *)
Theorem kfold_loop_cross_val_score (n : nat) (inds : list nat) :
  shuffled n inds → K ≤ n →
  regroup inds ≡ₚ inds ∧
  cross_val_score fit score (regroup inds) K
    = Some (kfold_loop fit score zero inds).2 ∧
  mean <$> cross_val_score fit score (regroup inds) K
    = Some (test_mean fit score mean zero inds).
Proof.
  intros Hsh Hn.
  pose proof (regroup_Permutation inds) as Hperm.
  assert (Hlen : length (regroup inds) = length inds)
    by by rewrite Hperm.
  assert (Hlenn : length inds = n).
  { unfold shuffled in Hsh. by rewrite Hsh, length_seq. }
  assert (Hcv : cross_val_score fit score (regroup inds) K
                = Some (kfold_loop fit score zero inds).2).
  { unfold cross_val_score. rewrite decide_True by (unfold K in *; lia).
    f_equal. unfold KFold_split. rewrite Hlen at 2.
    rewrite KFold_sizes_held_out.
    rewrite (KFold_from_concat _ [] (regroup inds)) by done.
    rewrite (held_out_scores_loop inds);
      [|by eapply shuffled_NoDup|done].
    by rewrite length_fmap, length_seq. }
  split; [done|]. split; [done|]. by rewrite Hcv.
Qed.

End CrossValidationFacts.

(** A toy estimator on which the two procedures can be run: the model is
    the sum of the training rows, the score multiplies it by the sum of the
    test rows. *)
Lemma kfold_loop_cross_val_score_witness :
  regroup [3; 0; 6; 2; 5; 1; 4] ≡ₚ [3; 0; 6; 2; 5; 1; 4] ∧
  cross_val_score sum_list (λ est rows, est * sum_list rows)
    (regroup [3; 0; 6; 2; 5; 1; 4]) K
    = Some (kfold_loop sum_list (λ est rows, est * sum_list rows) 0
              [3; 0; 6; 2; 5; 1; 4]).2 ∧
  (λ l, sum_list l / length l)
    <$> cross_val_score sum_list (λ est rows, est * sum_list rows)
          (regroup [3; 0; 6; 2; 5; 1; 4]) K
    = Some (test_mean sum_list (λ est rows, est * sum_list rows)
              (λ l, sum_list l / length l) 0 [3; 0; 6; 2; 5; 1; 4]).
Proof.
  apply (kfold_loop_cross_val_score sum_list (λ est rows, est * sum_list rows)
           (λ l, sum_list l / length l) 0) with (n := 7).
  - intros l l' Hl. by rewrite Hl.
  - intros est l l' Hl. by rewrite Hl.
  - unfold shuffled.
    rewrite <- (merge_sort_Permutation (≤) [3; 0; 6; 2; 5; 1; 4]).
    vm_compute. reflexivity.
  - unfold K. lia.
Defined.

Example kfold_loop_toy :
  (kfold_loop sum_list (λ est rows, est * sum_list rows) 0
     [3; 0; 6; 2; 5; 1; 4]).2 = [68; 68; 90; 38; 80] ∧
  cross_val_score sum_list (λ est rows, est * sum_list rows)
    (regroup [3; 0; 6; 2; 5; 1; 4]) K = Some [68; 68; 90; 38; 80] ∧
  regroup [3; 0; 6; 2; 5; 1; 4] = [3; 1; 0; 4; 6; 2; 5].
Proof. by vm_compute. Qed.

(** ** The [ls] helper *)

Import Pathlib.

Example Path_cache : Path "/tmp/cache" = ["tmp"; "cache"].
Proof. reflexivity. Qed.

Example str_cache : path_str (Path "/tmp/cache") = "/tmp/cache".
Proof. reflexivity. Qed.

(** C4. [ls] is a thin wrapper around directory listing: when
    [path.is_dir()] is true, [ls(path)] is exactly [list(path.iterdir())];
    when it is false, [ls(path)] raises a [ValueError] and returns nothing. *)
Theorem ls_thin_wrapper `{PathLike P} (path : P) :
  (is_dir path = LibOk true → ls path = call (iterdir path)) ∧
  (is_dir path = LibOk false →
     ls path =
       Raises (Exn FromNotebook ValueError
                 ("Path '" +:+ str path +:+ "' is not a directory")) ∧
     ∀ l, ls path ≠ Returns l).
Proof.
  unfold ls. split; intros ->; simpl; [done|]. split; [done|]. by intros l.
Qed.

Lemma ls_thin_wrapper_witness :
  @ls _ (LocalPath cache_with_readme) ["tmp"; "cache"]
    = Returns [["tmp"; "cache"; "README.md"]] ∧
  @ls _ (LocalPath cache_with_readme) ["tmp"; "cache"; "README.md"]
    = Raises (Exn FromNotebook ValueError
                "Path '/tmp/cache/README.md' is not a directory").
Proof.
  split.
  - rewrite (proj1 (@ls_thin_wrapper _ (LocalPath cache_with_readme)
                      ["tmp"; "cache"])); [|by vm_compute].
    by vm_compute.
  - apply (proj2 (@ls_thin_wrapper _ (LocalPath cache_with_readme)
                    ["tmp"; "cache"; "README.md"])). by vm_compute.
Defined.

(** C3, as the code has it. [ls] catches nothing: an exception that escapes
    it is either the one the library raised inside [is_dir] or [iterdir],
    unchanged, or the [ValueError] that [ls] itself constructs and raises
    for a path that is not a directory. *)
Theorem ls_exception_origin `{PathLike P} (path : P) (e : exn) :
  ls path = Raises e →
  (raised_by e = FromLibrary ∧
   (is_dir path = LibError (kind e) (message e) ∨
    (is_dir path = LibOk true ∧
     iterdir path = LibError (kind e) (message e)))) ∨
  (is_dir path = LibOk false ∧
   e = Exn FromNotebook ValueError
         ("Path '" +:+ str path +:+ "' is not a directory")).
Proof.
  unfold ls. destruct (is_dir path) as [[|]|k msg]; simpl.
  - destruct (iterdir path) as [l|k msg]; simpl; [done|].
    intros [= <-]. left. simpl. auto.
  - intros [= <-]. by right.
  - intros [= <-]. left. simpl. auto.
Qed.

Lemma ls_exception_origin_witness :
  (raised_by (Exn FromNotebook ValueError
                "Path '/tmp/cache/README.md' is not a directory")
     = FromLibrary ∧
   (@is_dir _ (LocalPath cache_with_readme) ["tmp"; "cache"; "README.md"]
      = LibError ValueError "Path '/tmp/cache/README.md' is not a directory" ∨
    (@is_dir _ (LocalPath cache_with_readme) ["tmp"; "cache"; "README.md"]
       = LibOk true ∧
     @iterdir _ (LocalPath cache_with_readme) ["tmp"; "cache"; "README.md"]
       = LibError ValueError
           "Path '/tmp/cache/README.md' is not a directory"))) ∨
  (@is_dir _ (LocalPath cache_with_readme) ["tmp"; "cache"; "README.md"]
     = LibOk false ∧
   Exn FromNotebook ValueError "Path '/tmp/cache/README.md' is not a directory"
     = Exn FromNotebook ValueError
         ("Path '" +:+
          @str _ (LocalPath cache_with_readme) ["tmp"; "cache"; "README.md"]
          +:+ "' is not a directory")).
Proof.
  apply (@ls_exception_origin _ (LocalPath cache_with_readme)
           ["tmp"; "cache"; "README.md"]
           (Exn FromNotebook ValueError
              "Path '/tmp/cache/README.md' is not a directory")).
  by vm_compute.
Defined.

(** C3, as the specification words it, fails: on a path that is a regular
    file the exception that escapes [ls] was constructed by the [raise]
    statement in the notebook, not by a library. *)
Lemma ls_raises_own_error :
  (∃ e, @ls _ (LocalPath cache_with_readme) ["tmp"; "cache"; "README.md"]
          = Raises e ∧
        raised_by e = FromNotebook ∧ kind e = ValueError ∧
        message e = "Path '/tmp/cache/README.md' is not a directory") ∧
  ¬ (∀ (P : Type) (H : PathLike P) (path : P) (e : exn),
       ls path = Raises e → raised_by e = FromLibrary).
Proof.
  assert (Hls : @ls _ (LocalPath cache_with_readme)
                  ["tmp"; "cache"; "README.md"]
                = Raises (Exn FromNotebook ValueError
                            "Path '/tmp/cache/README.md' is not a directory"))
    by by vm_compute.
  split.
  - eexists. split; [exact Hls|]. done.
  - intros Hall. specialize (Hall _ _ _ _ Hls). discriminate Hall.
Qed.

(** Library failures pass through [ls] untouched. *)
Lemma ls_propagates `{PathLike P} (path : P) k msg :
  (is_dir path = LibError k msg ∨
   (is_dir path = LibOk true ∧ iterdir path = LibError k msg)) →
  ls path = Raises (Exn FromLibrary k msg).
Proof. unfold ls. by intros [->|[-> ->]]. Qed.

(** ** The cache-directory cell *)

Section MkdirIfMissing.
Variable p : list string.

Lemma mkdir_if_missing_exists w :
  path_exists (files w) p = true →
  mkdir_if_missing p w
    = (Returns (), World (files w) (calls w ++ [ExistsCall p true])).
Proof.
  intros He. unfold mkdir_if_missing, mbind, cell_bind, path_exists_call.
  by rewrite He.
Qed.

Lemma mkdir_if_missing_missing w :
  path_exists (files w) p = false →
  mkdir_if_missing p w
    = (call (path_mkdir (files w) p).1,
       World (path_mkdir (files w) p).2
         (calls w ++ [ExistsCall p false;
                      MkdirCall p (path_mkdir (files w) p).1])).
Proof.
  intros He. unfold mkdir_if_missing, mbind, cell_bind, path_exists_call.
  rewrite He. simpl. unfold path_mkdir_call. simpl.
  rewrite <- app_assoc. simpl. by destruct (path_mkdir _ _).1.
Qed.

Lemma path_mkdir_missing fs :
  path_exists fs p = false → is_FileExistsError (path_mkdir fs p).1 = false.
Proof.
  unfold path_exists, path_mkdir. intros He%bool_decide_eq_false.
  destruct (node_at fs p) as [nd|]; [by destruct He|].
  by destruct (node_at fs (parent p)) as [[]|].
Qed.

Lemma path_mkdir_files fs :
  (path_mkdir fs p).2 = fs ∨
  ((path_mkdir fs p).1 = LibOk () ∧ (path_mkdir fs p).2 = <[p := Dir]> fs).
Proof.
  unfold path_mkdir. destruct (node_at fs p); [by left|].
  destruct (node_at fs (parent p)) as [[]|]; auto.
Qed.

Lemma path_exists_insert fs nd : path_exists (<[p := nd]> fs) p = true.
Proof.
  unfold path_exists, node_at. apply bool_decide_eq_true.
  destruct p; [done|]. by rewrite lookup_insert_eq.
Qed.

Lemma mkdir_if_missing_guarded fs :
  guarded_and_idempotent p (mkdir_if_missing p) fs.
Proof.
  unfold guarded_and_idempotent, run.
  destruct (path_exists fs p) eqn:He.
  - rewrite (mkdir_if_missing_exists (World fs [])) by done. simpl.
    split; [by left|]. split; [done|]. split; [done|].
    by rewrite mkdir_if_missing_exists.
  - rewrite (mkdir_if_missing_missing (World fs [])) by done. simpl.
    pose proof (path_mkdir_missing _ He) as Hm.
    split; [right; eauto|]. split; [|split; [done|]].
    + intros o msg. destruct (path_mkdir fs p).1 as [|[] ?]; done.
    + destruct (path_mkdir_files fs) as [Hf|[_ Hf]].
      * rewrite mkdir_if_missing_missing; simpl; rewrite Hf; [|done].
        by rewrite Hf.
      * rewrite mkdir_if_missing_exists; [done|]. simpl. rewrite Hf.
        apply path_exists_insert.
Qed.

End MkdirIfMissing.

(** ** Paths and credentials in the notebooks *)

Import DataAccess.



(** The first run on a machine that only has [/tmp], the second run, and a
    run on a machine without [/tmp]. *)
Example make_cache_dir_first_run :
  (run PathsIntro.make_cache_dir only_tmp).1 = Returns () ∧
  calls (run PathsIntro.make_cache_dir only_tmp).2
    = [ExistsCall ["tmp"; "cache"] false;
       MkdirCall ["tmp"; "cache"] (LibOk ())] ∧
  files (run PathsIntro.make_cache_dir only_tmp).2
    = <[ ["tmp"; "cache"] := Dir ]> only_tmp.
Proof. by vm_compute. Qed.

Example make_cache_dir_second_run :
  PathsIntro.make_cache_dir (run PathsIntro.make_cache_dir only_tmp).2
  = (Returns (),
     World (<[ ["tmp"; "cache"] := Dir ]> only_tmp)
       [ExistsCall ["tmp"; "cache"] false;
        MkdirCall ["tmp"; "cache"] (LibOk ());
        ExistsCall ["tmp"; "cache"] true]).
Proof. by vm_compute. Qed.

Example make_cache_dir_no_tmp :
  (run PathsIntro.make_cache_dir ∅).1
    = Raises (Exn FromLibrary FileNotFoundError "/tmp/cache").
Proof. by vm_compute. Qed.

(** Evaluates the store of each URL that occurs in the goal. *)
Ltac eval_store :=
  repeat match goal with
         | |- context [store_of_url ?u] =>
             let v := eval vm_compute in (store_of_url u) in
             change (store_of_url u) with v
         end.

(** C5. Every notebook follows the fixed path conventions: each S3 client
    caches under [/tmp/cache], each notebook that loads data through
    neuropythy has set [data_cache_root] to ['/tmp/cache'], and each table
    read from a local file is the shared ABIDE-II file, read with tab as the
    separator. *)
Theorem path_conventions : Forall follows_path_conventions repository.
Proof.
  unfold repository.
  repeat (apply List.Forall_cons; [|]); [..|apply List.Forall_nil].
  all: split; [|split]; simpl; auto.
  all: repeat (apply List.Forall_cons); try apply List.Forall_nil; auto.
  all: by cbv.
Qed.

(** The ABIDE-II table is read in these four notebooks, each time from the
    same path. *)
Example abide2_loads :
  (λ nb, source <$> csv_reads nb)
    <$> [Preliminaries.contents; Validation.contents;
         ModelSelection.contents; DimensionalityReduction.contents]
  = replicate 4 [LocalFile abide2_tsv].
Proof. reflexivity. Qed.

(** C6, as the notebooks have it. Every [S3Client] built for the HCP bucket
    is given the profile ['hcp'] and signs its requests; every [S3Client]
    built for the NSD or the OpenNeuro bucket is given
    [no_sign_request=True] and no profile.  Data loaded through neuropythy
    is reached without any [S3Client]: an HCP subject with the credentials
    that [load_aws_credentials('hcp')] put into [ny.config], an NSD or
    OpenNeuro subject by its bare [s3://] URL, with no credentials
    configured. *)
Theorem signing_conventions :
  Forall (λ nb, Forall signs_as_coded (accesses nb)) repository.
Proof.
  unfold repository.
  repeat (apply List.Forall_cons; [|]); [..|apply List.Forall_nil].
  all: unfold accesses; simpl.
  all: repeat (apply List.Forall_cons); try apply List.Forall_nil; simpl.
  all: eval_store.
  all: try (split; [intros ?|intros [?|?]]; done).
  all: try (split; [auto|]); by vm_compute.
Qed.

(** C6 as the specification words it fails on the NSD notebook: the
    FreeSurfer subject is read from the NSD bucket through neuropythy, and
    no client with [no_sign_request=True] is built for that access. *)
Lemma neuropythy_access_without_client :
  ViaNeuropythy NaturalScenes.sub NaturalScenes.config
    ∈ accesses NaturalScenes.contents ∧
  access_store (ViaNeuropythy NaturalScenes.sub NaturalScenes.config) = NSD ∧
  ¬ signs_as_specified (ViaNeuropythy NaturalScenes.sub NaturalScenes.config) ∧
  ¬ Forall (λ nb, Forall signs_as_specified (accesses nb)) repository.
Proof.
  assert (Hin : ViaNeuropythy NaturalScenes.sub NaturalScenes.config
                  ∈ accesses NaturalScenes.contents).
  { unfold accesses. simpl. rewrite !elem_of_cons. right. by left. }
  assert (Hst : access_store
                  (ViaNeuropythy NaturalScenes.sub NaturalScenes.config) = NSD)
    by by vm_compute.
  assert (Hno : ¬ signs_as_specified
                    (ViaNeuropythy NaturalScenes.sub NaturalScenes.config)).
  { intros [_ Hnsd]. destruct Hnsd as (p & Hp & _); [by left|]. discriminate. }
  split; [done|]. split; [done|]. split; [done|].
  intros Hall. apply Hno.
  rewrite Forall_forall in Hall.
  assert (Hnb : NaturalScenes.contents ∈ repository).
  { unfold repository. rewrite !elem_of_cons.
    do 9 right. by left. }
  specialize (Hall _ Hnb). rewrite Forall_forall in Hall. by apply Hall.
Qed.

(** ** The cumulative-variance curve *)

Section VarianceFacts.
Import VarianceExplained.
#[local] Open Scope Q_scope.

Lemma total_nonneg a : Forall (λ r, 0 <= r) a → 0 <= total a.
Proof. induction 1 as [|y a Hy _ IH]; simpl; lra. Qed.

Lemma cumsum_from_prefix a : ∀ acc i c,
  cumsum_from acc a !! i = Some c → c == acc + total (take (S i) a).
Proof.
  induction a as [|x a IH]; intros acc i c Hc; [done|].
  destruct i as [|i]; simpl in *.
  - injection Hc as <-. destruct a; simpl; lra.
  - apply IH in Hc. simpl in Hc. lra.
Qed.

Lemma cumsum_from_bounds a : ∀ acc,
  Forall (λ r, 0 <= r) a →
  Forall (λ c, acc <= c ∧ c <= acc + total a) (cumsum_from acc a).
Proof.
  induction a as [|x a IH]; intros acc Hnn; [constructor|].
  apply Forall_cons in Hnn as [Hx Hnn]. simpl.
  pose proof (total_nonneg a Hnn) as Ht.
  constructor; [lra|].
  eapply Forall_impl; [apply (IH (acc + x) Hnn)|].
  intros c [Hc1 Hc2]. simpl in *. lra.
Qed.

Lemma cumsum_from_sorted a : ∀ acc,
  Forall (λ r, 0 <= r) a → StronglySorted Qle (cumsum_from acc a).
Proof.
  induction a as [|x a IH]; intros acc Hnn; [constructor|].
  pose proof Hnn as Hnn'. apply Forall_cons in Hnn' as [Hx Hnn'].
  simpl. constructor; [by apply IH|].
  eapply Forall_impl; [apply (cumsum_from_bounds a (acc + x) Hnn')|].
  by intros c [Hc _].
Qed.



Example cumulative_variance_curve :
  cumulative_variance [1 # 2; 1 # 4; 1 # 8] = [1 # 2; 6 # 8; 56 # 64].
Proof. reflexivity. Qed.

End VarianceFacts.

(** ** Gradient descent *)

Section GradientDescentFacts.
Import GradientDescent.
#[local] Open Scope Q_scope.

Lemma func_value (x : Q) : func x == (x - 2) * (x - 2).
Proof. unfold func. simpl. ring. Qed.

Lemma func_deriv (x : Q) : deriv (func (Tracked x 1)) == 2 * (x - 2).
Proof. unfold func. simpl. ring. Qed.

Lemma iteration_data (x : param) :
  data (iteration x) == data x - (1 # 10) * (2 * (data x - 2)).
Proof.
  unfold iteration, sgd_step, backward, zero_grad, func, lr. simpl. ring.
Qed.

Lemma after_S n : after (S n) = iteration (after n).
Proof. reflexivity. Qed.

Lemma after_above_minimum n : 2 < data (after n).
Proof.
  induction n as [|n IH]; [by vm_compute|].
  rewrite after_S, iteration_data. lra.
Qed.

Lemma iteration_distance (x : param) :
  data (iteration x) - 2 == (4 # 5) * (data x - 2).
Proof. rewrite iteration_data. ring. Qed.

Lemma func_contracts (x : param) :
  func (data (iteration x)) == (16 # 25) * func (data x).
Proof.
  rewrite !func_value, iteration_distance. ring.
Qed.

Lemma func_positive n : 0 < func (data (after n)).
Proof.
  rewrite func_value. pose proof (after_above_minimum n). nra.
Qed.

Lemma after_closed_form n : data (after n) - 2 == 3 * (4 # 5) ^ Z.of_nat n.
Proof.
  induction n as [|n IH]; [by vm_compute|].
  rewrite after_S, iteration_distance, IH.
  rewrite Nat2Z.inj_succ, <- Z.add_1_r, Qpower_plus by done.
  simpl. ring.
Qed.


(** The first two passes from [x = 5]. *)
Example after_two_passes :
  data (after 1) == 44 # 10 ∧ data (after 2) == 392 # 100.
Proof. split; by vm_compute. Qed.

End GradientDescentFacts.

(** ** More on the folds of the manual loop *)

(** X1. The loop's folds are balanced: on [n] shuffled rows the test list of
    fold [k] has [n // 5] rows, plus one for the first [n % 5] folds; the
    train list has all the other rows; and the test lists of two folds
    differ in length by at most one. *)
Theorem kfold_fold_sizes (n : nat) (inds : list nat) (k : nat) :
  shuffled n inds → k < K →
  length (test K inds k) = n / 5 + (if decide (k < n mod 5) then 1 else 0) ∧
  length (train K inds k) = n - length (test K inds k) ∧
  (∀ k', k' < K →
     length (test K inds k) ≤ length (test K inds k') + 1).
Proof.
  intros Hsh Hk.
  pose proof (shuffled_NoDup _ _ Hsh) as Hnd.
  assert (Hn : length inds = n).
  { unfold shuffled in Hsh. by rewrite Hsh, length_seq. }
  assert (Htest : ∀ j, j < K → length (test K inds j) = fold_size K n j).
  { intros j Hj. rewrite (test_held_out K inds j Hnd), <- Hn.
    apply length_held_out; unfold K in *; lia. }
  split; [by rewrite Htest|]. split.
  - pose proof (train_held_out_Permutation K inds k) as Hp.
    apply Permutation_length in Hp. rewrite length_app in Hp.
    rewrite (test_held_out K inds k Hnd). lia.
  - intros k' Hk'. rewrite !Htest by done. unfold fold_size.
    repeat case_decide; lia.
Qed.

Lemma kfold_fold_sizes_witness :
  length (test K [3; 0; 6; 2; 5; 1; 4] 1) = 7 / 5 + 1 ∧
  length (train K [3; 0; 6; 2; 5; 1; 4] 1)
    = 7 - length (test K [3; 0; 6; 2; 5; 1; 4] 1) ∧
  (∀ k', k' < K →
     length (test K [3; 0; 6; 2; 5; 1; 4] 1)
       ≤ length (test K [3; 0; 6; 2; 5; 1; 4] k') + 1).
Proof.
  apply (kfold_fold_sizes 7 [3; 0; 6; 2; 5; 1; 4] 1).
  - unfold shuffled.
    rewrite <- (merge_sort_Permutation (≤) [3; 0; 6; 2; 5; 1; 4]).
    vm_compute. reflexivity.
  - unfold K. lia.
Defined.

(** X2. A fold of the loop has an empty test list exactly when there are no
    more rows than its number: with at least five rows every fold tests on
    something, with fewer rows the folds [k >= n] score an empty sample. *)
Theorem kfold_empty_test (n : nat) (inds : list nat) (k : nat) :
  shuffled n inds → k < K →
  (test K inds k = [] ↔ n ≤ k).
Proof.
  intros Hsh Hk.
  pose proof (shuffled_NoDup _ _ Hsh) as Hnd.
  assert (Hn : length inds = n).
  { unfold shuffled in Hsh. by rewrite Hsh, length_seq. }
  assert (Hlen : length (test K inds k) = fold_size K n k).
  { rewrite (test_held_out K inds k Hnd), <- Hn.
    apply length_held_out; unfold K in *; lia. }
  rewrite <- length_zero_iff_nil, Hlen. clear Hlen. unfold fold_size, K in *.
  destruct (decide (n < 5)) as [Hsmall|Hbig].
  - rewrite Nat.div_small, Nat.mod_small by done. case_decide; lia.
  - assert (1 ≤ n / 5) by (apply Nat.div_le_lower_bound; lia).
    case_decide; lia.
Qed.

Lemma kfold_empty_test_witness :
  test K [2; 0; 1] 3 = [] ↔ 3 ≤ 3.
Proof.
  apply (kfold_empty_test 3 [2; 0; 1] 3).
  - unfold shuffled.
    rewrite <- (merge_sort_Permutation (≤) [2; 0; 1]).
    vm_compute. reflexivity.
  - unfold K. lia.
Defined.

(** ** More on the gradient-descent loop *)

Section GradientDescentMore.
Import GradientDescent.
#[local] Open Scope Q_scope.

Lemma iterate_distance (x : param) (n : nat) :
  data (Nat.iter n iteration x) - 2 == (4 # 5) ^ Z.of_nat n * (data x - 2).
Proof.
  induction n as [|n IH]; [simpl; ring|].
  change (Nat.iter (S n) iteration x) with (iteration (Nat.iter n iteration x)).
  rewrite iteration_distance, IH.
  rewrite Nat2Z.inj_succ, <- Z.add_1_r, Qpower_plus by done.
  simpl. ring.
Qed.


(** Without [zero_grad], a second backward pass adds to the gradient. *)
Example backward_accumulates :
  grad (backward (Param 5 None)) = Some (deriv (func (Tracked 5 1))) ∧
  deriv (func (Tracked 5 1)) == 6 ∧
  (∃ g, grad (backward (backward (Param 5 None))) = Some g ∧ g == 12).
Proof.
  split; [done|]. split; [by vm_compute|].
  eexists. split; [reflexivity|by vm_compute].
Qed.

Lemma power_decay (n : nat) :
  (4 # 5) ^ Z.of_nat n * (inject_Z (Z.of_nat n) + 4) <= 4.
Proof.
  induction n as [|n IH]; [by vm_compute|].
  rewrite Nat2Z.inj_succ, <- Z.add_1_r, Qpower_plus by done.
  rewrite inject_Z_plus.
  assert (Hp : 0 <= (4 # 5) ^ Z.of_nat n) by (by apply Qpower_0_le).
  assert (Hn : 0 <= inject_Z (Z.of_nat n)).
  { change 0 with (inject_Z 0). rewrite <- Zle_Qle. lia. }
  change ((4 # 5) ^ 1) with (4 # 5). change (inject_Z 1) with 1.
  set (p := (4 # 5) ^ Z.of_nat n) in *.
  set (m := inject_Z (Z.of_nat n)) in *.
  assert (p * (4 # 5) * (m + 1 + 4) <= p * (m + 4)); [|lra].
  assert (Hd : 0 <= p * ((m + 4) - (4 # 5) * (m + 5))).
  { apply Qmult_le_0_compat; [done|lra]. }
  assert (Heq : p * ((m + 4) - (4 # 5) * (m + 5))
                == p * (m + 4) - p * (4 # 5) * (m + 1 + 4)) by ring.
  rewrite Heq in Hd. lra.
Qed.



End GradientDescentMore.

(** ** [ls] on a local file system, and the README cell *)

Section LocalListing.
Import ReadmeCell.

Lemma elem_of_path_listing (fs : gmap (list string) node) (p q : list string) :
  q ∈ filter (λ q, is_child p q) (elements (dom fs))
  ↔ q ∈ dom fs ∧ is_child p q = true.
Proof.
  rewrite list_elem_of_filter, elem_of_elements.
  split; intros [H1 H2]; split; try done.
  - by apply Is_true_true.
  - by apply Is_true_true.
Qed.

Lemma ls_directory (fs : gmap (list string) node) (p : list string) :
  path_is_dir fs p = true →
  ∃ l, @ls _ (LocalPath fs) p = Returns l ∧ NoDup l ∧
       ∀ q, q ∈ l ↔ q ∈ dom fs ∧ is_child p q = true.
Proof.
  intros Hd. unfold ls. simpl. rewrite Hd. simpl.
  unfold path_is_dir in Hd. apply bool_decide_eq_true in Hd.
  unfold path_iterdir. rewrite Hd. simpl. eexists. split; [done|]. split.
  - apply NoDup_filter, NoDup_elements.
  - intros q. apply elem_of_path_listing.
Qed.



Lemma singleton_list {A} (l : list A) (a : A) :
  NoDup l → (∀ q, q ∈ l ↔ q = a) → l = [a].
Proof.
  intros Hnd Hl. destruct l as [|x l].
  - assert (Ha : a ∈ @nil A) by by apply Hl. by apply elem_of_nil in Ha.
  - assert (x = a) as -> by (apply Hl; left).
    destruct l as [|y l]; [done|].
    assert (y = a) as -> by (apply Hl; right; left).
    apply NoDup_cons in Hnd as [Hnin _]. exfalso. apply Hnin. left.
Qed.

Lemma make_cache_dir_returns fs w1 :
  run PathsIntro.make_cache_dir fs = (Returns (), w1) →
  files w1 = fs ∨
  (node_at fs PathsIntro.cache_path = None ∧
   files w1 = <[PathsIntro.cache_path := Dir]> fs).
Proof.
  unfold run, PathsIntro.make_cache_dir. intros Hrun.
  destruct (path_exists fs PathsIntro.cache_path) eqn:He.
  - rewrite (mkdir_if_missing_exists _ (World fs [])) in Hrun by done.
    injection Hrun as <-. by left.
  - rewrite (mkdir_if_missing_missing _ (World fs [])) in Hrun by done.
    simpl in Hrun. injection Hrun as Hcall <-. simpl.
    destruct (path_mkdir_files PathsIntro.cache_path fs) as [->|[_ ->]];
      [by left|right].
    split; [|done]. unfold path_exists in He.
    apply bool_decide_eq_false in He.
    apply eq_None_not_Some. exact He.
Qed.



End LocalListing.

(** ** The shapes of the two networks *)

Section NetworkShapes.
Import Networks.

Lemma conv_size_Some (k st h r : nat) :
  conv_size k st h = Some r → k ≤ h ∧ r = (h - k) / st + 1.
Proof. unfold conv_size. case_decide; [|done]. by intros [= <-]. Qed.

Lemma half_spec (x : nat) : 2 * (x / 2) ≤ x ≤ 2 * (x / 2) + 1.
Proof.
  pose proof (Nat.div_mod_eq x 2).
  pose proof (Nat.mod_upper_bound x 2). lia.
Qed.

Lemma cnn_side_one (h : nat) : cnn_side h = Some 1 ↔ 25 ≤ h ≤ 28.
Proof.
  split.
  - unfold cnn_side. intros Hs.
    apply bind_Some in Hs as (h1 & [? ->]%conv_size_Some & Hs).
    apply bind_Some in Hs as (h2 & [? ->]%conv_size_Some & Hs).
    apply bind_Some in Hs as (h3 & [? ->]%conv_size_Some & Hs).
    apply bind_Some in Hs as (h4 & [? ->]%conv_size_Some & Hs).
    apply conv_size_Some in Hs as [? Hone].
    rewrite !Nat.div_1_r in *.
    pose proof (half_spec (h - 3 + 1 - 3 + 1 - 5)).
    pose proof (half_spec ((h - 3 + 1 - 3 + 1 - 5) / 2 + 1 - 3 + 1 - 7)).
    lia.
  - intros Hh.
    assert (h = 25 ∨ h = 26 ∨ h = 27 ∨ h = 28) as [->|[->|[->| ->]]] by lia;
      reflexivity.
Qed.

Lemma cnn_forward_sides (n h w : nat) :
  ConvolutionalNeuralNetwork.forward [n; 1; h; w]
  = h' ← cnn_side h; w' ← cnn_side w; Some [n; 10 * (h' * w')].
Proof.
  unfold ConvolutionalNeuralNetwork.forward, Sequential, cnn_side.
  unfold ConvolutionalNeuralNetwork.conv2d_relu_stack. simpl.
  destruct (conv_size 3 1 h) as [h1|]; simpl;
    [|by destruct (conv_size 3 1 w)].
  destruct (conv_size 3 1 w) as [w1|]; simpl;
    [|by repeat (match goal with
                 | |- context [conv_size ?k ?s ?x] =>
                     destruct (conv_size k s x); simpl
                 end)].
  destruct (conv_size 3 1 h1) as [h2|]; simpl;
    [|by destruct (conv_size 3 1 w1)].
  destruct (conv_size 3 1 w1) as [w2|]; simpl;
    [|by repeat (match goal with
                 | |- context [conv_size ?k ?s ?x] =>
                     destruct (conv_size k s x); simpl
                 end)].
  destruct (conv_size 5 2 h2) as [h3|]; simpl;
    [|by destruct (conv_size 5 2 w2)].
  destruct (conv_size 5 2 w2) as [w3|]; simpl;
    [|by repeat (match goal with
                 | |- context [conv_size ?k ?s ?x] =>
                     destruct (conv_size k s x); simpl
                 end)].
  destruct (conv_size 3 1 h3) as [h4|]; simpl;
    [|by destruct (conv_size 3 1 w3)].
  destruct (conv_size 3 1 w3) as [w4|]; simpl;
    [|by repeat (match goal with
                 | |- context [conv_size ?k ?s ?x] =>
                     destruct (conv_size k s x); simpl
                 end)].
  destruct (conv_size 7 2 h4) as [h5|]; simpl;
    [|by destruct (conv_size 7 2 w4)].
  destruct (conv_size 7 2 w4) as [w5|]; simpl; [|done].
  by rewrite Nat.mul_1_r.
Qed.

(** X7. The comments next to the layers of [ConvolutionalNeuralNetwork] are
    right: a batch of 28x28 one-channel images goes through 26x26, 24x24,
    10x10, 8x8 and 1x1, and leaves the stack as 10 numbers per image.  More
    generally the stack gives exactly 10 numbers per image if and only if
    both sides of the image are between 25 and 28 pixels.  A single image
    passed as [X[None,:]] (shape 1x28x28, as the plotting cell does) is read
    as one unbatched one-channel image and comes out with shape 10x1. *)
Theorem cnn_shapes (n h w : nat) :
  shapes_through ConvolutionalNeuralNetwork.conv2d_relu_stack [n; 1; 28; 28]
    = [ [n; 2; 26; 26]; [n; 2; 24; 24]; [n; 2; 24; 24]; [n; 8; 10; 10];
        [n; 8; 8; 8]; [n; 8; 8; 8]; [n; 10; 1; 1]; [n; 10] ] ∧
  (ConvolutionalNeuralNetwork.forward [n; 1; h; w] = Some [n; 10]
   ↔ 25 ≤ h ≤ 28 ∧ 25 ≤ w ≤ 28) ∧
  ConvolutionalNeuralNetwork.forward [1; 28; 28] = Some [10; 1].
Proof.
  split; [reflexivity|]. split; [|reflexivity].
  rewrite cnn_forward_sides, <- !cnn_side_one. split.
  - intros Hf. apply bind_Some in Hf as (h' & Hh & Hf).
    apply bind_Some in Hf as (w' & Hw & Hf).
    injection Hf as Hf.
    assert (h' * w' = 1) as [-> ->]%Nat.eq_mul_1 by lia. done.
  - intros [-> ->]. reflexivity.
Qed.

(** X8. [NeuralNetwork] accepts a batch of images exactly when an image has
    [28 * 28 = 784] pixels, and then returns 10 numbers per image. *)
Theorem mlp_shapes (n h w : nat) (out : list nat) :
  NeuralNetwork.forward [n; h; w] = Some out ↔ h * w = 784 ∧ out = [n; 10].
Proof.
  unfold NeuralNetwork.forward, NeuralNetwork.linear_relu_stack, Sequential.
  simpl. rewrite Nat.mul_1_r.
  destruct (decide (h * w = 784)) as [Heq|Hne]; simpl.
  - split; [by intros [= <-]|by intros [_ ->]].
  - split; [done|by intros [? _]].
Qed.

End NetworkShapes.

(** ** The polar angle *)

Section PolarAngle.
Import VisualField.
#[local] Open Scope Q_scope.

Lemma np_mod_range (x : Q) : 0 <= np_mod x 360 ∧ np_mod x 360 < 360.
Proof.
  unfold np_mod.
  pose proof (Qfloor_le (x / 360)) as Hlo.
  pose proof (Qlt_floor (x / 360)) as Hhi.
  rewrite inject_Z_plus in Hhi. change (inject_Z 1) with 1 in Hhi.
  assert (Hx : x == 360 * (x / 360)) by (field; done).
  set (f := inject_Z (Qfloor (x / 360))) in *.
  set (y := x / 360) in *. split; lra.
Qed.

Lemma Qfloor_unit (y : Q) : 0 <= y → y < 1 → Qfloor y = 0%Z.
Proof.
  intros Hlo Hhi.
  pose proof (Qfloor_le y) as H1. pose proof (Qlt_floor y) as H2.
  assert (Hz1 : (Qfloor y < 1)%Z).
  { rewrite Zlt_Qlt. change (inject_Z 1) with 1. lra. }
  assert (Hz2 : (0 < Qfloor y + 1)%Z).
  { rewrite Zlt_Qlt. change (inject_Z 0) with 0. lra. }
  lia.
Qed.



End PolarAngle.

(** ** Standardized columns *)

Section StandardizeFacts.
Import Standardize.
#[local] Open Scope Q_scope.

Lemma sum_cons (a : Q) (l : list Q) : sum (a :: l) = a + sum l.
Proof. reflexivity. Qed.

Lemma sum_fmap_ext {A} (f g : A → Q) (l : list A) :
  (∀ a, f a == g a) → sum (f <$> l) == sum (g <$> l).
Proof.
  intros Hfg. induction l as [|a l IH]; [reflexivity|].
  rewrite !fmap_cons, !sum_cons. by rewrite Hfg, IH.
Qed.

Lemma sum_fmap_div {A} (f : A → Q) (c : Q) (l : list A) :
  ¬ c == 0 → sum ((λ a, f a / c) <$> l) == sum (f <$> l) / c.
Proof.
  intros Hc. induction l as [|a l IH].
  - change (0 == 0 / c). field. done.
  - rewrite !fmap_cons, !sum_cons, IH. field. done.
Qed.

Lemma sum_centered (m : Q) (x : list Q) :
  sum ((λ xi, xi - m) <$> x) == sum x - inject_Z (Z.of_nat (length x)) * m.
Proof.
  induction x as [|a x IH].
  - change (0 == 0 - 0 * m). ring.
  - rewrite fmap_cons, !sum_cons, IH. cbn [length].
    rewrite Nat2Z.inj_succ, <- Z.add_1_r, inject_Z_plus.
    change (inject_Z 1) with 1. ring.
Qed.

Lemma length_nonzero (n : nat) : (1 ≤ n)%nat → ¬ inject_Z (Z.of_nat n) == 0.
Proof.
  intros Hn Heq. unfold Qeq in Heq. simpl in Heq. lia.
Qed.



Example standardize_column :
  Forall2 Qeq (standardize (λ _, 2) [0; 2; 4]) [-1; 0; 1].
Proof. repeat constructor; by vm_compute. Qed.

End StandardizeFacts.

(** ** The coefficient path *)

Section CoefPathFacts.
Import CoefPath.
#[local] Open Scope Q_scope.
Variable coef_ : Q → list Q.
Variable n_features : nat.

Lemma zeros_filled (cols : nat) : zeros n_features cols = filled coef_ n_features cols [].
Proof.
  unfold zeros, filled. apply list_eq. intros j.
  rewrite list_lookup_fmap. destruct (decide (j < n_features)%nat) as [Hj|Hj].
  - rewrite lookup_replicate_2, lookup_seq_lt by done. simpl.
    by rewrite Nat.sub_0_r.
  - rewrite (proj1 (lookup_replicate_None _ _ _)), lookup_seq_ge by lia.
    done.
Qed.

Lemma loop_filled (cols : nat) (l : list Q) :
  (length l ≤ cols)%nat →
  (∀ a, a ∈ l → length (coef_ a) = n_features) →
  foldl (loop_body coef_ cols) (Some (zeros n_features cols)) (enumerate l)
  = Some (filled coef_ n_features cols l).
Proof.
  induction l as [|a l IH] using rev_ind; intros Hlen Hall.
  - simpl. by rewrite zeros_filled.
  - rewrite length_app in Hlen. simpl in Hlen.
    rewrite enumerate_snoc, foldl_app, IH.
    + simpl. unfold loop_body. simpl. unfold set_column.
      assert (Ha : length (coef_ a) = n_features).
      { apply Hall. apply elem_of_app. right. by left. }
      rewrite decide_True by lia.
      rewrite decide_True by (unfold filled; by rewrite length_fmap, length_seq).
      f_equal. apply list_eq. intros j. unfold filled.
      rewrite lookup_zip_with, !list_lookup_fmap.
      destruct (decide (j < n_features)%nat) as [Hj|Hj].
      * rewrite lookup_seq_lt by done. simpl.
        destruct (lookup_lt_is_Some_2 (coef_ a) j ltac:(lia)) as [v Hv].
        rewrite Hv. simpl. f_equal.
        rewrite fmap_app, <- app_assoc, length_app. simpl.
        rewrite Hv. simpl.
        replace (cols - length l)%nat with (S (cols - (length l + 1))) by lia.
        rewrite insert_app_r_alt by (rewrite length_fmap; lia).
        rewrite length_fmap, Nat.sub_diag. done.
      * rewrite lookup_seq_ge by lia. done.
    + lia.
    + intros a' Ha'. apply Hall. apply elem_of_app. by left.
Qed.

Lemma T_filled (alpha : list Q) :
  (∀ a, a ∈ alpha → length (coef_ a) = n_features) →
  T (length alpha) (filled coef_ n_features (length alpha) alpha)
  = coef_ <$> alpha.
Proof.
  intros Hall. unfold T. apply list_eq. intros i.
  rewrite !list_lookup_fmap.
  destruct (alpha !! i) as [a|] eqn:Hi.
  - rewrite lookup_seq_lt by (by eapply lookup_lt_Some). simpl. f_equal.
    pose proof (Hall a (list_elem_of_lookup_2 _ _ _ Hi)) as Ha.
    unfold column, filled. apply list_eq. intros j.
    rewrite !list_lookup_fmap.
    destruct (decide (j < n_features)%nat) as [Hj|Hj].
    + rewrite lookup_seq_lt by done. simpl.
      rewrite Nat.sub_diag. simpl. rewrite app_nil_r, list_lookup_fmap, Hi.
      simpl. destruct (lookup_lt_is_Some_2 (coef_ a) j ltac:(lia)) as [v Hv].
      by rewrite Hv.
    + rewrite lookup_seq_ge by lia. simpl. symmetry.
      apply lookup_ge_None. lia.
  - apply lookup_ge_None in Hi. by rewrite lookup_seq_ge by lia.
Qed.

(** X11. When every fit returns one coefficient per feature, the loop of
    [plot_coef_path] raises nothing and hands [ax.plot] the penalties and,
    as [coefs.T], one row per penalty: the coefficients fitted with it. *)
Theorem plot_coef_path_rows (alpha : list Q) :
  (∀ a, a ∈ alpha → length (coef_ a) = n_features) →
  plot_coef_path coef_ n_features alpha = Some (alpha, coef_ <$> alpha).
Proof.
  intros Hall. unfold plot_coef_path.
  rewrite loop_filled by done. simpl. by rewrite T_filled.
Qed.

Lemma loop_None (cols : nat) (l : list (nat * Q)) :
  foldl (loop_body coef_ cols) None l = None.
Proof. by induction l. Qed.

Lemma set_column_rows (cols : nat) (coefs coefs' : array2d) i v :
  set_column cols coefs i v = Some coefs' → length coefs' = length coefs.
Proof.
  unfold set_column. intros H. repeat case_decide; try done.
  - injection H as <-. rewrite length_zip_with. lia.
  - destruct v as [|c [|? ?]]; try done. injection H as <-.
    by rewrite length_fmap.
Qed.

Lemma loop_mismatch (cols : nat) (l : list (nat * Q)) (coefs : array2d) ia :
  length coefs = n_features →
  ia ∈ l →
  length (coef_ ia.2) ≠ n_features →
  length (coef_ ia.2) ≠ 1%nat →
  foldl (loop_body coef_ cols) (Some coefs) l = None.
Proof.
  intros Hrows Hin Hp H1. revert coefs Hrows.
  induction l as [|hd l IH]; intros coefs Hrows; [by apply elem_of_nil in Hin|].
  simpl. apply elem_of_cons in Hin as [<-|Hin].
  - replace (set_column cols coefs ia.1 (coef_ ia.2)) with (@None array2d);
      [apply loop_None|].
    unfold set_column. case_decide; [|done].
    rewrite decide_False by lia.
    by destruct (coef_ ia.2) as [|c [|? ?]].
  - destruct (set_column cols coefs hd.1 (coef_ hd.2)) as [coefs'|] eqn:Hset.
    + apply IH; [done|]. apply set_column_rows in Hset. lia.
    + apply loop_None.
Qed.

(** X12. A single fit whose [coef_] has neither one entry per feature nor
    exactly one entry makes [plot_coef_path] raise, whatever the other fits
    return: nothing is plotted. *)
Theorem plot_coef_path_mismatch (alpha : list Q) (a : Q) :
  a ∈ alpha →
  length (coef_ a) ≠ n_features →
  length (coef_ a) ≠ 1%nat →
  plot_coef_path coef_ n_features alpha = None.
Proof.
  intros Hin Hp H1. unfold plot_coef_path.
  apply list_elem_of_lookup_1 in Hin as [i Hi].
  rewrite (loop_mismatch _ _ _ (i, a)); try done.
  - unfold zeros. by rewrite length_replicate.
  - by apply elem_of_enumerate.
Qed.

End CoefPathFacts.

Section CoefPathExamples.
#[local] Open Scope Q_scope.

Lemma plot_coef_path_rows_witness :
  CoefPath.plot_coef_path (λ a, [a; a + 1]) 2 [1; 2; 3]
  = Some ([1; 2; 3], (λ a, [a; a + 1]) <$> [1; 2; 3]).
Proof.
  apply (plot_coef_path_rows (λ a, [a; a + 1]) 2 [1; 2; 3]).
  intros a _. reflexivity.
Defined.

Lemma plot_coef_path_mismatch_witness :
  CoefPath.plot_coef_path (λ a, if Qeq_bool a 2 then [] else [a; a + 1])
    2 [1; 2; 3] = None.
Proof.
  apply (plot_coef_path_mismatch _ 2 [1; 2; 3] 2).
  - right. left.
  - simpl. lia.
  - simpl. lia.
Defined.

End CoefPathExamples.
